(** * tsludo-react: the Ludo game core

    A shallow embedding of the board model ([data.helpers.tsx]), the turn
    state machine ([gameState.helpers]), the easing curves
    ([graphics.helpers]) and the two animation ticks ([ludoRenderer.tsx],
    [diceRenderer.tsx]), followed by the properties of the specification.

    Conventions of the embedding:
    - a JavaScript [number] that holds a count, an index or a dice face is
      a [Z]; a number that holds a time stamp, a pixel coordinate or a
      normalised time is an exact rational [Q].  The code evaluates
      these in IEEE 754 binary64, where a sum or a product is rounded:
      the statements keep such a result in the form of the expression
      the code evaluates, and name a value only where binary64 gives
      that value too, or keep a margin that is large against the
      rounding; [interpolate64] evaluates one expression in binary64
      itself;
    - ambient effects are explicit: [uuid()] draws from a [UuidSource],
      [performance.now()] and [Math.random()] are read from the arguments
      of a tick, the [window] slots are a record threaded through the
      tick, and canvas calls and callbacks are logged as a list of
      effects in the order in which the code performs them;
    - a thrown exception is the [Throw] outcome. *)

From Stdlib Require Import ZArith QArith Qround List String DecimalString Bool Lia Lqa.
From Stdlib Require Import PrimFloat.
Import ListNotations.

Local Open Scope Z_scope.

(* ------------------------------------------------------------------ *)
(** ** types.tsx *)

Inductive CellType := HOME | START | SAFE | NORMAL | FINISH | WALL.

Inductive PlayerId := RED | BLUE | YELLOW | GREEN.

Inductive PlayerState :=
  NOT_STARTED | ROLLING | THINKING | MOVING | FINISHED | WON | LOST.

Module Colors.
Inductive t := BLACK | WHITE | TRANSPARENT_LITERAL | RED | BLUE | YELLOW | GREEN.
End Colors.

Record Position := { row : Z; col : Z }.

Record Coin := { coinId : string; player : PlayerId; position : Position }.

Record Cell := {
  cellId : Z;
  cellPosition : Position;
  type : CellType;
  cellPlayer : option PlayerId;
  color : Colors.t;
  coins : list Coin
}.

Definition BoardMatrix := list (list Cell).

Record DiceState := { value : Z; rolling : bool }.

Record Player := {
  id : PlayerId;
  state : PlayerState;
  playerCoins : list Coin;
  movesLeft : Z;
  nextPossibleStates : list PlayerState
}.

Record LudoGameState := {
  currentPlayer : PlayerId;
  players : list Player;
  boardMatrix : BoardMatrix;
  started : bool;
  diceState : DiceState
}.

Record Vertex := { x : Q; y : Q }.

(** [===] on the two enumerations that the code compares. *)
Definition PlayerId_eqb (a b : PlayerId) : bool :=
  match a, b with
  | RED, RED | BLUE, BLUE | YELLOW, YELLOW | GREEN, GREEN => true
  | _, _ => false
  end.

(* ------------------------------------------------------------------ *)
(** ** Exceptions *)

Inductive Exception :=
| TypeError                      (* property read on [undefined] *)
| TimeGreaterThanOne (time : Q)  (* 'Time value cannot be greater than 1 *)
| TimeLessThanZero (time : Q).   (* 'Time value cannot be less than 0 *)

Inductive Result (A : Type) :=
| Ok (a : A)
| Throw (e : Exception).
Arguments Ok {A} a.
Arguments Throw {A} e.

Definition throws {A} (r : Result A) : Prop := exists e, r = Throw e.

(* ------------------------------------------------------------------ *)
(** ** The uuid generator

    [uuid()] (v4) returns a fresh random string on every call.  The
    source of these strings is the hidden state of the library; here it
    is a stream of strings and the number of strings already drawn. *)

Record UuidSource := { draw : nat -> string; drawn : nat }.

Definition Gen (A : Type) : Type := UuidSource -> A * UuidSource.

Definition ret {A} (a : A) : Gen A := fun g => (a, g).

Definition bind {A B} (m : Gen A) (k : A -> Gen B) : Gen B :=
  fun g => let (a, g') := m g in k a g'.

Notation "x <- m ;; k" := (bind m (fun x => k))
  (at level 61, m at next level, right associativity).

Definition uuid : Gen string :=
  fun g => (draw g (drawn g), {| draw := draw g; drawn := S (drawn g) |}).

(** [for (const a of l) out.push(f(a))] for an effectful [f]. *)
Fixpoint forEach {A B} (f : A -> Gen B) (l : list A) : Gen (list B) :=
  match l with
  | [] => ret []
  | a :: l' => b <- f a ;; bs <- forEach f l' ;; ret (b :: bs)
  end.

(* ------------------------------------------------------------------ *)
(** ** data.helpers.tsx *)

Definition BOARD_SIZE : Z := 15.

Definition getPlayerColor (p : option PlayerId) : Colors.t :=
  match p with
  | Some RED => Colors.RED
  | Some BLUE => Colors.BLUE
  | Some YELLOW => Colors.YELLOW
  | Some GREEN => Colors.GREEN
  | None => Colors.WHITE
  end.

(** [coins.push({ id: uuid(), player, position: { row, col } })] *)
Definition push (p : PlayerId) (r c : Z) (coins : list Coin) : Gen (list Coin) :=
  i <- uuid ;;
  ret (coins ++ [{| coinId := i; player := p; position := {| row := r; col := c |} |}]).

Definition createCoinInstance (r c : Z) : Gen (list Coin) :=
  coins <- ret [] ;;
  coins <- (if r =? 2 then
              coins <- (if (c =? 2) || (c =? 3) then push RED r c coins else ret coins) ;;
              if (c =? 11) || (c =? 12) then push GREEN r c coins else ret coins
            else ret coins) ;;
  coins <- (if r =? 3 then
              coins <- (if (c =? 2) || (c =? 3) then push RED r c coins else ret coins) ;;
              if (c =? 11) || (c =? 12) then push GREEN r c coins else ret coins
            else ret coins) ;;
  coins <- (if r =? 11 then
              coins <- (if (c =? 2) || (c =? 3) then push BLUE r c coins else ret coins) ;;
              if (c =? 11) || (c =? 12) then push YELLOW r c coins else ret coins
            else ret coins) ;;
  coins <- (if r =? 12 then
              coins <- (if (c =? 2) || (c =? 3) then push BLUE r c coins else ret coins) ;;
              if (c =? 11) || (c =? 12) then push YELLOW r c coins else ret coins
            else ret coins) ;;
  ret coins.

Definition cellTypeMask : list (list Z) :=
  [ [0; 0; 0; 0; 0; 0; 1; 1; 1; 0; 0; 0; 0; 0; 0];
    [0; 0; 0; 0; 0; 0; 1; 2; 3; 0; 0; 0; 0; 0; 0];
    [0; 0; 5; 5; 0; 0; 2; 2; 1; 0; 0; 5; 5; 0; 0];
    [0; 0; 5; 5; 0; 0; 1; 2; 1; 0; 0; 5; 5; 0; 0];
    [0; 0; 0; 0; 0; 0; 1; 2; 1; 0; 0; 0; 0; 0; 0];
    [0; 0; 0; 0; 0; 0; 1; 2; 1; 0; 0; 0; 0; 0; 0];
    [1; 3; 1; 1; 1; 1; 0; 4; 0; 1; 1; 1; 2; 1; 1];
    [1; 2; 2; 2; 2; 2; 4; 0; 4; 2; 2; 2; 2; 2; 1];
    [1; 1; 2; 1; 1; 1; 0; 4; 0; 1; 1; 1; 1; 3; 1];
    [0; 0; 0; 0; 0; 0; 1; 2; 1; 0; 0; 0; 0; 0; 0];
    [0; 0; 0; 0; 0; 0; 1; 2; 1; 0; 0; 0; 0; 0; 0];
    [0; 0; 5; 5; 0; 0; 1; 2; 1; 0; 0; 5; 5; 0; 0];
    [0; 0; 5; 5; 0; 0; 1; 2; 3; 0; 0; 5; 5; 0; 0];
    [0; 0; 0; 0; 0; 0; 3; 2; 1; 0; 0; 0; 0; 0; 0];
    [0; 0; 0; 0; 0; 0; 1; 1; 1; 0; 0; 0; 0; 0; 0] ].

Definition playerMask : list (list Z) :=
  [ [0; 0; 0; 0; 0; 0; 0; 0; 0; 0; 0; 0; 0; 0; 0];
    [0; 0; 0; 0; 0; 0; 0; 2; 2; 0; 0; 0; 0; 0; 0];
    [0; 0; 0; 0; 0; 0; 0; 2; 0; 0; 0; 0; 0; 0; 0];
    [0; 0; 0; 0; 0; 0; 0; 2; 0; 0; 0; 0; 0; 0; 0];
    [0; 0; 0; 0; 0; 0; 0; 2; 0; 0; 0; 0; 0; 0; 0];
    [0; 0; 0; 0; 0; 0; 0; 2; 0; 0; 0; 0; 0; 0; 0];
    [0; 1; 0; 0; 0; 0; 0; 2; 0; 0; 0; 0; 0; 0; 0];
    [0; 1; 1; 1; 1; 1; 1; 0; 3; 3; 3; 3; 3; 3; 0];
    [0; 0; 0; 0; 0; 0; 0; 4; 0; 0; 0; 0; 0; 3; 0];
    [0; 0; 0; 0; 0; 0; 0; 4; 0; 0; 0; 0; 0; 0; 0];
    [0; 0; 0; 0; 0; 0; 0; 4; 0; 0; 0; 0; 0; 0; 0];
    [0; 0; 0; 0; 0; 0; 0; 4; 0; 0; 0; 0; 0; 0; 0];
    [0; 0; 0; 0; 0; 0; 0; 4; 0; 0; 0; 0; 0; 0; 0];
    [0; 0; 0; 0; 0; 0; 4; 4; 0; 0; 0; 0; 0; 0; 0];
    [0; 0; 0; 0; 0; 0; 0; 0; 0; 0; 0; 0; 0; 0; 0] ].

Definition colorMask : list (list Z) :=
  [ [1; 1; 1; 1; 1; 1; 0; 0; 0; 2; 2; 2; 2; 2; 2];
    [1; 0; 0; 0; 0; 1; 0; 2; 2; 2; 0; 0; 0; 0; 2];
    [1; 0; 1; 1; 0; 1; 0; 2; 0; 2; 0; 2; 2; 0; 2];
    [1; 0; 1; 1; 0; 1; 0; 2; 0; 2; 0; 2; 2; 0; 2];
    [1; 0; 0; 0; 0; 1; 0; 2; 0; 2; 0; 0; 0; 0; 2];
    [1; 1; 1; 1; 1; 1; 0; 2; 0; 2; 2; 2; 2; 2; 2];
    [0; 1; 0; 0; 0; 0; 0; 2; 0; 0; 0; 0; 0; 0; 0];
    [0; 1; 1; 1; 1; 1; 1; 0; 3; 3; 3; 3; 3; 3; 0];
    [0; 0; 0; 0; 0; 0; 0; 4; 0; 0; 0; 0; 0; 3; 0];
    [4; 4; 4; 4; 4; 4; 0; 4; 0; 3; 3; 3; 3; 3; 3];
    [4; 0; 0; 0; 0; 4; 0; 4; 0; 3; 0; 0; 0; 0; 3];
    [4; 0; 4; 4; 0; 4; 0; 4; 0; 3; 0; 3; 3; 0; 3];
    [4; 0; 4; 4; 0; 4; 0; 4; 0; 3; 0; 3; 3; 0; 3];
    [4; 0; 0; 0; 0; 4; 4; 4; 0; 3; 0; 0; 0; 0; 3];
    [4; 4; 4; 4; 4; 4; 0; 0; 0; 3; 3; 3; 3; 3; 3] ].

(** [mask[i]![j]]: [undefined] (here [None]) out of range. *)
Definition at2 (mask : list (list Z)) (i j : Z) : option Z :=
  match nth_error mask (Z.to_nat i) with
  | Some r => nth_error r (Z.to_nat j)
  | None => None
  end.

(** The values [0; 1; ...; n-1] of a counting [for] loop. *)
Definition upto (n : Z) : list Z := map Z.of_nat (seq 0 (Z.to_nat n)).

Definition buildCell (i j : Z) : Gen Cell :=
  let cellType := at2 cellTypeMask i j in
  let player := at2 playerMask i j in
  let color := at2 colorMask i j in
  coins <- createCoinInstance i j ;;
  ret {|
    cellId := i * BOARD_SIZE + j;
    cellPosition := {| row := i; col := j |};
    type := match cellType with
            | Some 1 => NORMAL
            | Some 2 => SAFE
            | Some 3 => START
            | Some 4 => FINISH
            | Some 5 => HOME
            | _ => WALL
            end;
    cellPlayer := match player with
                  | Some 1 => Some RED
                  | Some 2 => Some GREEN
                  | Some 3 => Some YELLOW
                  | Some 4 => Some BLUE
                  | _ => None
                  end;
    color := match color with
             | Some 1 => getPlayerColor (Some RED)
             | Some 2 => getPlayerColor (Some GREEN)
             | Some 3 => getPlayerColor (Some YELLOW)
             | Some 4 => getPlayerColor (Some BLUE)
             | _ => getPlayerColor None
             end;
    coins := coins
  |}.

Definition getBoardMatrix : Gen BoardMatrix :=
  forEach (fun i => forEach (fun j => buildCell i j) (upto BOARD_SIZE)) (upto BOARD_SIZE).

(* ------------------------------------------------------------------ *)
(** ** gameState.helpers *)

(** [gameState.players.find(p => p.id === gameState.currentPlayer)];
    [None] is [undefined]. *)
Definition getCurrentPlayer (gameState : LudoGameState) : option Player :=
  find (fun p => PlayerId_eqb (id p) (currentPlayer gameState)) (players gameState).

Definition getPlayer (playerId : PlayerId) (gameState : LudoGameState) : option Player :=
  find (fun p => PlayerId_eqb (id p) playerId) (players gameState).

(** [player.state!] on the result of [find]: reading [state] of
    [undefined] throws. *)
Definition getPlayerState (playerId : PlayerId) (ps : list Player) : Result PlayerState :=
  match find (fun p => PlayerId_eqb (id p) playerId) ps with
  | Some p => Ok (state p)
  | None => Throw TypeError
  end.

(** The two optional parameters are [None] when the caller leaves them
    out; [a ?? b] is [b] exactly then. *)
Definition reducePlayerState (playerId : PlayerId) (nextState : PlayerState)
    (gameState : LudoGameState) (movesLeft' : option Z)
    (nextPossibleStates' : option (list PlayerState)) : list Player :=
  map (fun p =>
         if PlayerId_eqb (id p) playerId then
           {| id := id p;
              state := nextState;
              playerCoins := playerCoins p;
              movesLeft := match movesLeft' with
                           | Some m => m
                           | None => movesLeft p - 1
                           end;
              nextPossibleStates := match nextPossibleStates' with
                                    | Some n => n
                                    | None => nextPossibleStates p
                                    end |}
         else p)
      (players gameState).

Definition reduceDiceClick (nextDiceValue : Z) (gameState : LudoGameState)
  : Result LudoGameState :=
  match getCurrentPlayer gameState with
  | None => Throw TypeError
  | Some cur =>
      let movesLeft0 := movesLeft cur - 1 in
      let nextPossibleStates0 := nextPossibleStates cur in
      let '(movesLeft1, nextPossibleStates1) :=
        if nextDiceValue =? 6 then (1, [THINKING])
        else (movesLeft0, nextPossibleStates0) in
      Ok {| currentPlayer := currentPlayer gameState;
            players := reducePlayerState (currentPlayer gameState) ROLLING gameState
                         (Some movesLeft1) (Some nextPossibleStates1);
            boardMatrix := boardMatrix gameState;
            started := started gameState;
            diceState := {| value := nextDiceValue; rolling := true |} |}
  end.

Definition reduceDiceRollDone (gameState : LudoGameState) : Result LudoGameState :=
  match getCurrentPlayer gameState with
  | None => Throw TypeError
  | Some cur =>
      let movesLeft0 := movesLeft cur - 1 in
      let nextPossibleStates0 := nextPossibleStates cur in
      let '(movesLeft1, nextPossibleStates1) :=
        if value (diceState gameState) =? 6 then (1, [MOVING])
        else (movesLeft0, nextPossibleStates0) in
      Ok {| currentPlayer := currentPlayer gameState;
            players := reducePlayerState (currentPlayer gameState) THINKING gameState
                         (Some movesLeft1) (Some nextPossibleStates1);
            boardMatrix := boardMatrix gameState;
            started := started gameState;
            diceState := {| value := value (diceState gameState); rolling := false |} |}
  end.

(** [cell.coins[0]]; [None] is [undefined], and a coin object is
    truthy. *)
Definition coin0 (cell : Cell) : option Coin := hd_error (coins cell).

Definition initiateGameState : Gen LudoGameState :=
  matrix <- getBoardMatrix ;;
  let cellsWithCoins :=
    filter (fun cell => match coin0 cell with Some _ => true | None => false end)
           (List.concat matrix) in
  let createPlayer (playerId : PlayerId) : Player :=
    let cells :=
      filter (fun cell => match coin0 cell with
                          | Some c => PlayerId_eqb (player c) playerId
                          | None => false
                          end) cellsWithCoins in
    (* [cells.map(cell => cell.coins[0])]: every cell kept by the two
       filters has a first coin *)
    {| id := playerId;
       state := NOT_STARTED;
       playerCoins := flat_map (fun cell => match coin0 cell with
                                            | Some c => [c]
                                            | None => []
                                            end) cells;
       movesLeft := 3;
       nextPossibleStates := [ROLLING] |} in
  let roster := [createPlayer RED; createPlayer GREEN; createPlayer YELLOW; createPlayer BLUE] in
  ret {| currentPlayer := RED;
         started := false;
         boardMatrix := matrix;
         players := roster;
         diceState := {| value := 3; rolling := false |} |}.

(* ------------------------------------------------------------------ *)
(** ** graphics.helpers: the easing curves *)

(** [a < b] on numbers. *)
Definition Qltb (a b : Q) : bool := negb (Qle_bool b a).

Definition easeOut (time : Q) : Result Q :=
  if Qltb 1 time then Throw (TimeGreaterThanOne time)
  else if Qltb time 0 then Throw (TimeLessThanZero time)
  else Ok (1 - (1 - time) ^ 2)%Q.

Definition easeIn (time : Q) : Result Q :=
  if Qltb 1 time then Throw (TimeGreaterThanOne time)
  else if Qltb time 0 then Throw (TimeLessThanZero time)
  else Ok (time ^ 2)%Q.

Definition easeInOut (time : Q) : Result Q :=
  if Qltb 1 time then Throw (TimeGreaterThanOne time)
  else if Qltb time 0 then Throw (TimeLessThanZero time)
  else Ok (if Qltb time (1 # 2) then 2 * time ^ 2
           else 1 - (-2 * time + 2) ^ 2 / 2)%Q.

(* ------------------------------------------------------------------ *)
(** ** The animation ticks *)

(** The three [window] slots the renderers declare; [None] is
    [undefined]. *)
Record Window := {
  ludoAnimationStartTime : option Q;
  animationStartTime : option Q;
  lastDiceValue : option Z
}.

(** What a tick does to the outside, in program order. *)
Inductive Effect :=
| RenderAnimationPath (start end_ : Vertex)
| RenderCoin (center : Vertex) (playerType : PlayerId) (cellSize : Q)
| OnAnimationComplete
| RenderDiceFace (diceValue : Z) (size : Q)
| ConsoleLog (message : string)
| OnRollDone.

(** The truthy content of a slot holding a number or [undefined]:
    [!slot] is true for [undefined] and for [0]. *)
Definition armed (slot : option Q) : option Q :=
  match slot with
  | Some t => if Qeq_bool t 0 then None else Some t
  | None => None
  end.

(** [a / b].  A zero divisor gives NaN or an infinity, which the
    rationals do not have: [None]. *)
Definition divide (a b : Q) : option Q :=
  if Qeq_bool b 0 then None else Some (a / b)%Q.

(** [start.x + (end.x - start.x) * easeOutFactor] as the code evaluates
    it, in IEEE 754 binary64. *)
Definition interpolate64 (start end_ easeOutFactor : PrimFloat.float) : PrimFloat.float :=
  PrimFloat.add start (PrimFloat.mul (PrimFloat.sub end_ start) easeOutFactor).

(** [if (renderPath) renderAnimationPath(context, start, end)] *)
Definition guideLine (renderPath : bool) (start end_ : Vertex) : list Effect :=
  if renderPath then [RenderAnimationPath start end_] else [].

(** One call of [animateCoins]; [now] is what [performance.now()]
    returns in it.  The outer [None] is the non-finite quotient of
    [divide]. *)
Definition animateCoins (animationPath : list Vertex) (cellSize : Q)
    (renderPath : bool) (animationDuration : Q) (now : Q) (w : Window)
  : option (Result (Window * list Effect)) :=
  match animationPath with
  | start :: end_ :: _ =>
      let drawn0 := guideLine renderPath start end_ in
      match armed (ludoAnimationStartTime w) with
      | None =>
          Some (Ok ({| ludoAnimationStartTime := Some now;
                       animationStartTime := animationStartTime w;
                       lastDiceValue := lastDiceValue w |}, drawn0))
      | Some t0 =>
          let timeElapsed := (now - t0)%Q in
          if Qltb animationDuration timeElapsed then
            Some (Ok ({| ludoAnimationStartTime := None;
                         animationStartTime := animationStartTime w;
                         lastDiceValue := lastDiceValue w |},
                      drawn0 ++ [OnAnimationComplete]))
          else
            match divide timeElapsed animationDuration with
            | None => None
            | Some t =>
                match easeInOut t with
                | Throw e => Some (Throw e)
                | Ok easeOutFactor =>
                    let nextPosition :=
                      {| x := x start + (x end_ - x start) * easeOutFactor;
                         y := y start + (y end_ - y start) * easeOutFactor |}%Q in
                    Some (Ok (w, drawn0 ++ [RenderCoin nextPosition RED cellSize]))
                end
            end
      end
  | _ => Some (Ok (w, []))
  end.

(** [Math.min(a, b)] *)
Definition mathMin (a b : Q) : Q := if Qltb b a then b else a.

(** [Math.floor(Math.random() * 6) + 1] for the value [random] of
    [Math.random()]. *)
Definition getRandomDiceValue (random : Q) : Z := Qfloor (random * 6) + 1.

(** [window.lastDiceValue || diceState.value] *)
Definition orValue (slot : option Z) (v : Z) : Z :=
  match slot with
  | Some l => if l =? 0 then v else l
  | None => v
  end.

(** One call of [animateDiceFace]; [now] is what [performance.now()]
    returns in it, [ticket] the [Math.random()] compared with the
    ease-out value and [random] the one [getRandomDiceValue] draws. *)
Definition animateDiceFace (diceState : DiceState) (height width : Q)
    (animationDuration : Q) (now ticket random : Q) (w : Window)
  : option (Result (Window * list Effect)) :=
  let side := mathMin height width in
  if rolling diceState then
    let lastDiceValue0 := orValue (lastDiceValue w) (value diceState) in
    let finish (w1 : Window) (isLastFrame skipFrame : bool) :=
      let painted := [RenderDiceFace lastDiceValue0 side] in
      if isLastFrame then
        Some (Ok ({| ludoAnimationStartTime := ludoAnimationStartTime w1;
                     animationStartTime := Some 0%Q;
                     lastDiceValue := Some (value diceState) |},
                  painted ++ [ConsoleLog "animation done"; OnRollDone]))
      else if negb skipFrame then
        Some (Ok ({| ludoAnimationStartTime := ludoAnimationStartTime w1;
                     animationStartTime := animationStartTime w1;
                     lastDiceValue := Some (getRandomDiceValue random) |},
                  painted))
      else Some (Ok (w1, painted)) in
    match armed (animationStartTime w) with
    | None =>
        finish {| ludoAnimationStartTime := ludoAnimationStartTime w;
                  animationStartTime := Some now;
                  lastDiceValue := lastDiceValue w |} false false
    | Some t0 =>
        let timeElapsed := (now - t0)%Q in
        if Qltb animationDuration timeElapsed then finish w true false
        else
          match divide timeElapsed animationDuration with
          | None => None
          | Some t =>
              match easeOut t with
              | Throw e => Some (Throw e)
              | Ok p => finish w false (Qltb ticket p)
              end
          end
    end
  else
    Some (Ok (w, [RenderDiceFace (value diceState) side])).

(* ------------------------------------------------------------------ *)
(** ** Observations used by the statements *)

Definition cells (m : BoardMatrix) : list Cell := List.concat m.

Definition allCoins (m : BoardMatrix) : list Coin := flat_map coins (cells m).

Definition cellAt (m : BoardMatrix) (i j : nat) : option Cell :=
  match nth_error m i with
  | Some r => nth_error r j
  | None => None
  end.

Definition coinsOf (p : PlayerId) (l : list Coin) : list Coin :=
  filter (fun c => PlayerId_eqb (player c) p) l.

(** A board with the identity of every coin blanked out. *)
Definition anonymous (c : Coin) : Coin :=
  {| coinId := EmptyString; player := player c; position := position c |}.

Definition eraseCoinIds (m : BoardMatrix) : BoardMatrix :=
  map (map (fun cell =>
              {| cellId := cellId cell;
                 cellPosition := cellPosition cell;
                 type := type cell;
                 cellPlayer := cellPlayer cell;
                 color := color cell;
                 coins := map anonymous (coins cell) |})) m.

(** The designated 2x2 home nest of each player. *)
Definition homeNest (p : PlayerId) (pos : Position) : bool :=
  let within lo hi v := (lo <=? v) && (v <=? hi) in
  match p with
  | RED => within 2 3 (row pos) && within 2 3 (col pos)
  | GREEN => within 2 3 (row pos) && within 11 12 (col pos)
  | BLUE => within 11 12 (row pos) && within 2 3 (col pos)
  | YELLOW => within 11 12 (row pos) && within 11 12 (col pos)
  end.

(** A uuid source that hands out "0", "1", "2", ... *)
Definition countingSource : UuidSource :=
  {| draw := fun n => NilEmpty.string_of_uint (Nat.to_uint n); drawn := 0 |}.

Definition newGame : LudoGameState := fst (initiateGameState countingSource).

(** Red as [initiateGameState] seats it. *)
Definition redAtStart : Player :=
  {| id := RED;
     state := NOT_STARTED;
     playerCoins := coinsOf RED (allCoins (boardMatrix newGame));
     movesLeft := 3;
     nextPossibleStates := [ROLLING] |}.


(** The two events of the turn machine and runs of them. *)
Inductive Event := DiceClicked (v : Z) | RollSettled.

Definition step (e : Event) (s : LudoGameState) : Result LudoGameState :=
  match e with
  | DiceClicked v => reduceDiceClick v s
  | RollSettled => reduceDiceRollDone s
  end.

Fixpoint run (es : list Event) (s : LudoGameState) : Result LudoGameState :=
  match es with
  | [] => Ok s
  | e :: es' =>
      match step e s with
      | Ok s' => run es' s'
      | Throw x => Throw x
      end
  end.

(** The states reachable from a new game in [n] transitions, the dice
    showing a face from 1 to 6. *)
Inductive reachable (g : UuidSource) : nat -> LudoGameState -> Prop :=
| reach_init : reachable g 0 (fst (initiateGameState g))
| reach_click n s s' v :
    reachable g n s -> 1 <= v <= 6 -> reduceDiceClick v s = Ok s' ->
    reachable g (S n) s'
| reach_settle n s s' :
    reachable g n s -> reduceDiceRollDone s = Ok s' ->
    reachable g (S n) s'.

(** The roster of a game in progress: Red, to play, is seated first and
    has between [2 - n] and [3] moves left; the three others still have
    their initial three. *)
Definition seated (n : nat) (s : LudoGameState) : Prop :=
  currentPlayer s = RED
  /\ exists r gp yp bp,
       players s = [r; gp; yp; bp]
       /\ (id r = RED /\ id gp = GREEN /\ id yp = YELLOW /\ id bp = BLUE)
       /\ (movesLeft gp = 3 /\ movesLeft yp = 3 /\ movesLeft bp = 3)
       /\ 2 - Z.of_nat n <= movesLeft r <= 3.

(** What a tick logged. *)
Definition completions (fx : list Effect) : nat :=
  List.length (filter (fun e => match e with OnAnimationComplete => true | _ => false end) fx).

Definition rollsDone (fx : list Effect) : nat :=
  List.length (filter (fun e => match e with OnRollDone => true | _ => false end) fx).

Definition coinsRendered (fx : list Effect) : list Vertex :=
  flat_map (fun e => match e with RenderCoin c _ _ => [c] | _ => [] end) fx.

Definition facesRendered (fx : list Effect) : list Z :=
  flat_map (fun e => match e with RenderDiceFace v _ => [v] | _ => [] end) fx.

(** The guard that the three curves share: [f] throws exactly outside
    [0, 1] and is [body] inside. *)
Definition guarded (f : Q -> Result Q) (body : Q -> Q) : Prop :=
  forall t,
    (throws (f t) <-> ~ (0 <= t <= 1)%Q)
    /\ ((0 <= t <= 1)%Q -> f t = Ok (body t)).

(** Equality of pixel coordinates as numbers. *)
Definition sameVertex (a b : Vertex) : Prop := (x a == x b)%Q /\ (y a == y b)%Q.

(* ------------------------------------------------------------------ *)
(** ** data.helpers.tsx: cell geometry *)

Definition getCellCenter (cell : Cell) (cellSize : Q) : Vertex :=
  {| x := inject_Z (col (cellPosition cell)) * cellSize + cellSize / 2;
     y := inject_Z (row (cellPosition cell)) * cellSize + cellSize / 2 |}%Q.

(** [canvasHeight / BOARD_SIZE] *)
Definition cellSizeOf (canvasHeight : Q) : Q := (canvasHeight / inject_Z BOARD_SIZE)%Q.

(** [getClickedCell]: [clientX], [clientY] are the coordinates of the
    mouse event and [rectLeft], [rectTop] the corner of the canvas'
    bounding rectangle.  The inner [None] is the [undefined] the
    function returns, [Throw TypeError] the index read on a missing row,
    the outer [None] the non-finite quotient of a zero cell size. *)
Definition getClickedCell (clientX clientY rectLeft rectTop canvasHeight : Q)
    (boardMatrix : BoardMatrix) : option (Result (option Cell)) :=
  let x := (clientX - rectLeft)%Q in
  let y := (clientY - rectTop)%Q in
  let cellSize := cellSizeOf canvasHeight in
  match divide y cellSize, divide x cellSize with
  | Some qy, Some qx =>
      let cellRow := Qfloor qy in
      let cellCol := Qfloor qx in
      if (cellRow <? 0) || (cellRow >=? BOARD_SIZE)
         || (cellCol <? 0) || (cellCol >=? BOARD_SIZE)
      then Some (Ok None)
      else
        match nth_error boardMatrix (Z.to_nat cellRow) with
        | None => Some (Throw TypeError)
        | Some r => Some (Ok (nth_error r (Z.to_nat cellCol)))
        end
  | _, _ => None
  end.

(** The type and the owners a cell can have. *)
Definition isType (t : CellType) (cell : Cell) : bool :=
  match t, type cell with
  | HOME, HOME | START, START | SAFE, SAFE
  | NORMAL, NORMAL | FINISH, FINISH | WALL, WALL => true
  | _, _ => false
  end.

Definition ownedBy (p : PlayerId) (cell : Cell) : bool :=
  match cellPlayer cell with
  | Some q => PlayerId_eqb q p
  | None => false
  end.

(** Runs in which no 6 is rolled. *)
Definition noSix (es : list Event) : bool :=
  forallb (fun e => match e with
                    | DiceClicked v => negb (v =? 6)
                    | RollSettled => true
                    end) es.

(** The new game after Red's first roll, a 4. *)
Definition afterFirstClick : LudoGameState :=
  match step (DiceClicked 4) newGame with
  | Ok s => s
  | Throw _ => newGame
  end.

(** What stays true of a game in progress, [n] transitions after its
    start from the uuid source [g]. *)
Definition inPlay (g : UuidSource) (n : nat) (s : LudoGameState) : Prop :=
  currentPlayer s = RED
  /\ started s = false
  /\ boardMatrix s = boardMatrix (fst (initiateGameState g))
  /\ 1 <= value (diceState s) <= 6
  /\ exists r gp yp bp,
       players s = [r; gp; yp; bp]
       /\ (id r = RED /\ id gp = GREEN /\ id yp = YELLOW /\ id bp = BLUE)
       /\ (state gp = NOT_STARTED /\ state yp = NOT_STARTED /\ state bp = NOT_STARTED)
       /\ state r = match n with
                    | O => NOT_STARTED
                    | S _ => if rolling (diceState s) then ROLLING else THINKING
                    end.

(** A retained dice face, when there is one, is a face of the dice. *)
Definition validFace (slot : option Z) : Prop :=
  match slot with
  | Some v => 1 <= v <= 6
  | None => True
  end.

(* ------------------------------------------------------------------ *)
(** ** Drawing: graphics.helpers, renderCoin, renderAnimationPath,
       renderDiceFace and renderBoard

    A drawing function is the list of the calls it makes, in program
    order: calls on the canvas context and calls of the drawing helpers.
    The body of a helper is again such a list. *)

(** A [fillStyle], [strokeStyle] or [shadowColor]: a member of [Colors]
    or a literal. *)
Inductive Style := Color (c : Colors.t) | Literal (name : string).

(** The angles passed to [arc]: a number, or [2 * Math.PI]. *)
Inductive Angle := Radians (a : Q) | TwoPi.

Inductive Call :=
| BeginPath
| ClosePath
| MoveTo (px py : Q)
| LineTo (px py : Q)
| Arc (cx cy radius : Q) (startAngle endAngle : Angle)
| RoundRect (px py wd ht radii : Q)
| SetFillStyle (s : Style)
| SetStrokeStyle (s : Style)
| SetLineWidth (lineWidth : Q)
| SetShadowColor (s : Style)
| SetShadowBlur (blur : Q)
| Fill
| Stroke
| FillRect (px py wd ht : Q)
| StrokeRect (px py wd ht : Q)
| CallFillTriangle (v1 v2 v3 : Vertex) (fillColor : Style)
| CallStrokeTriangle (v1 v2 v3 : Vertex) (lineWidth : Q) (strokeStyle : Style)
| CallStrokeCircle (center : Vertex) (radius lineWidth : Q) (strokeStyle : Style)
| CallFillCircle (center : Vertex) (radius : Q) (fillStyle : Style)
| CallRenderCoin (center : Vertex) (playerType : PlayerId) (cellSize : Q).

Definition fillTriangle (v1 v2 v3 : Vertex) (fillColor : Style) : list Call :=
  [BeginPath; MoveTo (x v1) (y v1); LineTo (x v2) (y v2); LineTo (x v3) (y v3);
   SetFillStyle fillColor; Fill; ClosePath].

Definition strokeTriangle (v1 v2 v3 : Vertex) (lineWidth : Q) (strokeStyle : Style)
  : list Call :=
  [BeginPath; MoveTo (x v1) (y v1); LineTo (x v2) (y v2); LineTo (x v3) (y v3);
   SetLineWidth lineWidth; SetStrokeStyle strokeStyle; Stroke; ClosePath].

Definition strokeCircle (center : Vertex) (radius lineWidth : Q) (strokeStyle : Style)
  : list Call :=
  [BeginPath; Arc (x center) (y center) radius (Radians 0) TwoPi;
   SetLineWidth lineWidth; SetStrokeStyle strokeStyle; Stroke; ClosePath].

Definition fillCircle (center : Vertex) (radius : Q) (fillStyle : Style) : list Call :=
  [BeginPath; Arc (x center) (y center) radius (Radians 0) TwoPi;
   SetFillStyle fillStyle; Fill; ClosePath].

Definition renderCoin (startCellCenter : Vertex) (playerType : PlayerId) (cellSize : Q)
  : list Call :=
  [SetShadowColor (Color Colors.BLACK);
   SetShadowBlur 10;
   CallFillCircle startCellCenter (cellSize / (26 # 10))
                  (Color (getPlayerColor (Some playerType)));
   CallStrokeCircle startCellCenter (cellSize / (26 # 10)) 1 (Color Colors.BLACK);
   CallStrokeCircle startCellCenter (cellSize / 3) 1 (Color Colors.BLACK);
   CallStrokeCircle startCellCenter (cellSize / 10) 1 (Color Colors.BLACK);
   CallStrokeCircle startCellCenter (cellSize / 20) 1 (Color Colors.BLACK);
   SetShadowColor (Color Colors.TRANSPARENT_LITERAL);
   SetShadowBlur 0]%Q.

Definition renderAnimationPath (start end_ : Vertex) : list Call :=
  [BeginPath; MoveTo (x start) (y start); LineTo (x end_) (y end_);
   SetLineWidth 5; SetStrokeStyle (Color Colors.BLACK); Stroke; ClosePath;
   BeginPath; MoveTo (x start) (y start); LineTo (x end_) (y end_);
   SetLineWidth 2; SetStrokeStyle (Literal "white"); Stroke; ClosePath]%Q.

Definition renderDiceFace (diceValue : Z) (size : Q) : list Call :=
  let padding := (size / 10)%Q in
  let actualSize := (size - padding * 2)%Q in
  let radius := (padding * (8 # 10))%Q in
  let center := {| x := actualSize / 2 + padding; y := actualSize / 2 + padding |}%Q in
  let topLeft := {| x := padding * 3; y := padding * 3 |}%Q in
  let left := {| x := padding * 3; y := y center |}%Q in
  let bottomLeft := {| x := padding * 3; y := actualSize - padding |}%Q in
  let topRight := {| x := actualSize - padding; y := padding * 3 |}%Q in
  let right := {| x := actualSize - padding; y := y center |}%Q in
  let bottomRight := {| x := actualSize - padding; y := actualSize - padding |}%Q in
  let black := Color Colors.BLACK in
  let red := Color Colors.RED in
  [SetFillStyle (Color Colors.WHITE); FillRect 0 0 size size;
   BeginPath; RoundRect padding padding actualSize actualSize radius;
   SetLineWidth (size / 40); SetStrokeStyle black; Stroke; ClosePath]%Q
  ++ (if diceValue =? 1 then [CallFillCircle center radius black] else [])
  ++ (if diceValue =? 2 then
        [CallFillCircle left radius black; CallFillCircle right radius black]
      else [])
  ++ (if diceValue =? 3 then
        [CallFillCircle left radius black; CallFillCircle center radius black;
         CallFillCircle right radius black]
      else [])
  ++ (if diceValue =? 4 then
        [CallFillCircle topLeft radius black; CallFillCircle topRight radius black;
         CallFillCircle bottomLeft radius black; CallFillCircle bottomRight radius black]
      else [])
  ++ (if diceValue =? 5 then
        [CallFillCircle topLeft radius black; CallFillCircle topRight radius black;
         CallFillCircle center radius black;
         CallFillCircle bottomLeft radius black; CallFillCircle bottomRight radius black]
      else [])
  ++ (if diceValue =? 6 then
        [CallFillCircle topLeft radius red; CallFillCircle left radius red;
         CallFillCircle bottomLeft radius red;
         CallFillCircle topRight radius red; CallFillCircle right radius red;
         CallFillCircle bottomRight radius red]
      else []).

(** The calls an [async] function made and the exception it was
    rejected with, if any. *)
Definition Painting : Type := list Call * option Exception.

Definition andThen (a b : Painting) : Painting :=
  match snd a with
  | Some e => a
  | None => (fst a ++ fst b, snd b)
  end.

(** A [for] loop whose body may throw. *)
Fixpoint forLoop {A} (body : A -> Painting) (l : list A) : Painting :=
  match l with
  | [] => ([], None)
  | a :: l' => andThen (body a) (forLoop body l')
  end.

(** [boardMatrix![i]![j]]; reading an index of a missing row throws. *)
Definition cellOf (boardMatrix : BoardMatrix) (i j : Z) : Result (option Cell) :=
  match nth_error boardMatrix (Z.to_nat i) with
  | None => Throw TypeError
  | Some r => Ok (nth_error r (Z.to_nat j))
  end.

(** The body of the first pair of loops of [renderBoard]: the square of
    the cell at row [i], column [j], and its ring marker. *)
Definition paintCell (boardMatrix : BoardMatrix) (cellSize : Q) (i j : Z) : Painting :=
  let black := Color Colors.BLACK in
  match cellOf boardMatrix i j with
  | Throw e => ([], Some e)
  | Ok None => ([], None)
  | Ok (Some cell) =>
      ([SetFillStyle (Color (color cell));
        FillRect (inject_Z j * cellSize) (inject_Z i * cellSize) cellSize cellSize;
        SetStrokeStyle black;
        SetLineWidth (3 # 10);
        StrokeRect (inject_Z j * cellSize) (inject_Z i * cellSize) cellSize cellSize]%Q
       ++ (if isType START cell
              || (isType SAFE cell
                  && match cellPlayer cell with Some _ => false | None => true end)
           then
             let center := {| x := inject_Z j * cellSize + cellSize / 2;
                              y := inject_Z i * cellSize + cellSize / 2 |}%Q in
             [CallStrokeCircle center (cellSize / (25 # 10)) (25 # 10) black;
              CallStrokeCircle center (cellSize / 3) 1 black;
              CallStrokeCircle center (cellSize / (37 # 10)) 1 black;
              CallStrokeCircle center (cellSize / 5) 1 black;
              CallStrokeCircle center (cellSize / 9) 1 black;
              CallStrokeCircle center (cellSize / 30) 1 black;
              CallStrokeCircle center (cellSize / 50) 5 black]%Q
           else []), None)
  end.

(** The four triangles of the finish zone, filled and then outlined. *)
Definition finishZone (cellSize : Q) : list Call :=
  let black := Color Colors.BLACK in
  let r1 := {| x := cellSize * 6; y := cellSize * 6 |}%Q in
  let r2 := {| x := cellSize * 6; y := cellSize * 9 |}%Q in
  let r3 := {| x := cellSize * (75 # 10); y := cellSize * (75 # 10) |}%Q in
  let g1 := {| x := cellSize * 6; y := cellSize * 6 |}%Q in
  let g2 := {| x := cellSize * 9; y := cellSize * 6 |}%Q in
  let g3 := {| x := cellSize * (75 # 10); y := cellSize * (75 # 10) |}%Q in
  let b1 := {| x := cellSize * 9; y := cellSize * 6 |}%Q in
  let b2 := {| x := cellSize * 9; y := cellSize * 9 |}%Q in
  let b3 := {| x := cellSize * (75 # 10); y := cellSize * (75 # 10) |}%Q in
  let y1 := {| x := cellSize * 6; y := cellSize * 9 |}%Q in
  let y2 := {| x := cellSize * 9; y := cellSize * 9 |}%Q in
  let y3 := {| x := cellSize * (75 # 10); y := cellSize * (75 # 10) |}%Q in
  [CallFillTriangle r1 r2 r3 (Color (getPlayerColor (Some RED)));
   CallFillTriangle g1 g2 g3 (Color (getPlayerColor (Some GREEN)));
   CallFillTriangle b1 b2 b3 (Color (getPlayerColor (Some YELLOW)));
   CallFillTriangle y1 y2 y3 (Color (getPlayerColor (Some BLUE)));
   CallStrokeTriangle r1 r2 r3 (3 # 10) black;
   CallStrokeTriangle g1 g2 g3 (3 # 10) black;
   CallStrokeTriangle b1 b2 b3 (3 # 10) black;
   CallStrokeTriangle y1 y2 y3 (3 # 10) black].

(** The body of the second pair of loops: the coins of the cell at row
    [i], column [j]. *)
Definition paintCoins (boardMatrix : BoardMatrix) (cellSize : Q) (i j : Z) : Painting :=
  match cellOf boardMatrix i j with
  | Throw e => ([], Some e)
  | Ok None => ([], None)
  | Ok (Some cell) =>
      (map (fun coin => CallRenderCoin (getCellCenter cell cellSize) (player coin) cellSize)
           (coins cell), None)
  end.

Definition renderBoard (boardSize : Q) (gameState : LudoGameState) (cellSize : Q)
  : Painting :=
  let boardMatrix := boardMatrix gameState in
  andThen
    ([SetFillStyle (Color Colors.WHITE); FillRect 0 0 boardSize boardSize], None)
    (andThen
       (forLoop (fun i => forLoop (fun j => paintCell boardMatrix cellSize i j)
                                  (upto BOARD_SIZE))
                (upto BOARD_SIZE))
       (andThen
          (finishZone cellSize, None)
          (andThen
             ([SetStrokeStyle (Color Colors.BLACK); SetLineWidth 5;
               StrokeRect 0 0 boardSize boardSize]%Q, None)
             (forLoop (fun i => forLoop (fun j => paintCoins boardMatrix cellSize i j)
                                        (upto BOARD_SIZE))
                      (upto BOARD_SIZE))))).

(** The body of the helper a call names; a context call is left as it
    is. *)
Definition body (c : Call) : list Call :=
  match c with
  | CallFillTriangle v1 v2 v3 fillColor => fillTriangle v1 v2 v3 fillColor
  | CallStrokeTriangle v1 v2 v3 lineWidth strokeStyle =>
      strokeTriangle v1 v2 v3 lineWidth strokeStyle
  | CallStrokeCircle center radius lineWidth strokeStyle =>
      strokeCircle center radius lineWidth strokeStyle
  | CallFillCircle center radius fillStyle => fillCircle center radius fillStyle
  | CallRenderCoin center playerType cellSize => renderCoin center playerType cellSize
  | _ => [c]
  end.

(** The context calls a list of calls comes down to: [renderCoin] calls
    the circle helpers, which call the context. *)
Definition contextCalls (calls : list Call) : list Call :=
  flat_map body (flat_map body calls).

(** What a drawing shows. *)
Definition pips (calls : list Call) : list (Vertex * Q * Style) :=
  flat_map (fun c => match c with
                     | CallFillCircle center radius fillStyle => [(center, radius, fillStyle)]
                     | _ => []
                     end) calls.

Definition coinCalls (calls : list Call) : list (Vertex * PlayerId * Q) :=
  flat_map (fun c => match c with
                     | CallRenderCoin center playerType cellSize =>
                         [(center, playerType, cellSize)]
                     | _ => []
                     end) calls.

(** The cells [renderBoard] meets: those of the first fifteen rows and
    columns, row by row. *)
Definition grid (boardMatrix : BoardMatrix) : list Cell :=
  flat_map (fun i => flat_map (fun j => match cellOf boardMatrix i j with
                                        | Ok (Some cell) => [cell]
                                        | _ => []
                                        end) (upto BOARD_SIZE)) (upto BOARD_SIZE).

(** The path discipline of the canvas context: [open] tells whether a
    path has been begun and not closed.  [None] when a path is begun
    inside a path, closed or drawn on outside one, or when a helper call
    is met that has not been replaced by its body. *)
Fixpoint pathState (open : bool) (calls : list Call) : option bool :=
  match calls with
  | [] => Some open
  | c :: rest =>
      match c with
      | BeginPath => if open then None else pathState true rest
      | ClosePath => if open then pathState false rest else None
      | MoveTo _ _ | LineTo _ _ | Arc _ _ _ _ _ | RoundRect _ _ _ _ _ | Fill | Stroke =>
          if open then pathState open rest else None
      | SetFillStyle _ | SetStrokeStyle _ | SetLineWidth _
      | SetShadowColor _ | SetShadowBlur _ | FillRect _ _ _ _ | StrokeRect _ _ _ _ =>
          pathState open rest
      | CallFillTriangle _ _ _ _ | CallStrokeTriangle _ _ _ _ _
      | CallStrokeCircle _ _ _ _ | CallFillCircle _ _ _ | CallRenderCoin _ _ _ => None
      end
  end.

(** The shadow blur in force after the calls, starting from [blur]. *)
Definition shadowBlurAfter (blur : Q) (calls : list Call) : Q :=
  fold_left (fun b c => match c with SetShadowBlur b' => b' | _ => b end) calls blur.

(** The cell at row 2, column 2 of a new board, with Red's first coin. *)
Definition redNestCell : Cell :=
  {| cellId := 32;
     cellPosition := {| row := 2; col := 2 |};
     type := HOME;
     cellPlayer := None;
     color := Colors.RED;
     coins := [{| coinId := "0"; player := RED;
                  position := {| row := 2; col := 2 |} |}] |}.

(** A drawing that leaves the context as it found it: it starts and
    ends outside any path, keeps the path discipline in between, and
    ends with the shadow blur at 0. *)
Definition tidy (calls : list Call) : Prop :=
  pathState false (contextCalls calls) = Some false
  /\ shadowBlurAfter 0 (contextCalls calls) = 0%Q.

(** The string each member of [enum Colors] stands for (types.tsx);
    it is what [getPlayerColor] returns and what the canvas is given. *)
Definition colorValue (c : Colors.t) : string :=
  match c with
  | Colors.BLACK => "#000000"
  | Colors.WHITE => "#ffffff"
  | Colors.TRANSPARENT_LITERAL => "transparent"
  | Colors.RED => "#ff0000"
  | Colors.BLUE => "#0088ff"
  | Colors.YELLOW => "#ffff00"
  | Colors.GREEN => "#00ff00"
  end.

(* ================================================================== *)
(** * Board model *)

Section Board.

Variable g : UuidSource.

Local Ltac by_evaluation :=
  destruct g as [d n]; vm_compute; repeat split; repeat constructor.

(** The board is 15 x 15. *)
Lemma getBoardMatrix_shape :
  map (@List.length Cell) (fst (getBoardMatrix g)) = repeat 15%nat 15.
Proof. by_evaluation. Qed.

(** Building the board draws exactly sixteen uuids, one per coin, in
    row-major order. *)
Lemma getBoardMatrix_draws :
  map coinId (allCoins (fst (getBoardMatrix g))) = map (draw g) (seq (drawn g) 16)
  /\ snd (getBoardMatrix g) = {| draw := draw g; drawn := (16 + drawn g)%nat |}.
Proof. by_evaluation. Qed.

(** C1, as amended: whatever the uuid generator returns, the board is
    the same in every cell id, position, type, owner and colour and in
    the owner and position of every coin; the coin ids are the next
    sixteen values of the generator. *)
Theorem getBoardMatrix_deterministic_up_to_coin_ids :
  forall g' : UuidSource,
    eraseCoinIds (fst (getBoardMatrix g)) = eraseCoinIds (fst (getBoardMatrix g'))
    /\ map coinId (allCoins (fst (getBoardMatrix g))) = map (draw g) (seq (drawn g) 16).
Proof.
  intros [d' n']. destruct g as [d n]. vm_compute. split; reflexivity.
Qed.

(** C6: a new game holds sixteen coins, four per player, every coin in
    the home nest of its owner; Red is to play and the dice shows 3,
    at rest. *)
Theorem initiateGameState_layout :
  let s := fst (initiateGameState g) in
  List.length (flat_map playerCoins (players s)) = 16%nat
  /\ List.length (allCoins (boardMatrix s)) = 16%nat
  /\ map (fun p => (id p, List.length (playerCoins p))) (players s)
     = [(RED, 4%nat); (GREEN, 4%nat); (YELLOW, 4%nat); (BLUE, 4%nat)]
  /\ (forall p, List.length (coinsOf p (allCoins (boardMatrix s))) = 4%nat)
  /\ Forall (fun p => Forall (fun c => player c = id p
                                       /\ homeNest (id p) (position c) = true)
                             (playerCoins p)) (players s)
  /\ Forall (fun c => homeNest (player c) (position c) = true) (allCoins (boardMatrix s))
  /\ currentPlayer s = RED
  /\ diceState s = {| value := 3; rolling := false |}.
Proof.
  destruct g as [d n]. cbv zeta.
  repeat match goal with |- _ /\ _ => split end;
    try (intros []); vm_compute; repeat constructor.
Qed.

(** C7, as amended: every coin of the initial layout lies on a cell of
    type Home that has no owner, whose colour is the colour of the
    coin's player and whose position is the coin's position. *)
Theorem coins_originate_on_home_cells :
  Forall (fun cell =>
            Forall (fun c => type cell = HOME
                             /\ cellPlayer cell = None
                             /\ color cell = getPlayerColor (Some (player c))
                             /\ position c = cellPosition cell)
                   (coins cell))
         (cells (fst (getBoardMatrix g))).
Proof. by_evaluation. Qed.

End Board.

(** C1, as stated, fails: two successive calls return boards that differ
    in the id of the coin at row 2, column 2. *)
Lemma getBoardMatrix_not_deterministic :
  let first := getBoardMatrix countingSource in
  let second := getBoardMatrix (snd first) in
  fst first <> fst second.
Proof.
  cbv zeta. intros H.
  apply (f_equal (fun m => option_map (fun cell => map coinId (coins cell)) (cellAt m 2 2))) in H.
  vm_compute in H. discriminate H.
Qed.

(** C7, as stated, fails: the cell at row 2, column 2 holds a Red coin,
    yet its type is Home and it has no owner. *)
Lemma coin_cell_not_START :
  cellAt (fst (getBoardMatrix countingSource)) 2 2
  = Some {| cellId := 32;
            cellPosition := {| row := 2; col := 2 |};
            type := HOME;
            cellPlayer := None;
            color := Colors.RED;
            coins := [{| coinId := "0"; player := RED;
                         position := {| row := 2; col := 2 |} |}] |}
  /\ ~ Forall (fun cell => Forall (fun c => type cell = START
                                            /\ cellPlayer cell = Some (player c))
                                  (coins cell))
              (cells (fst (getBoardMatrix countingSource))).
Proof.
  split; [vm_compute; reflexivity|].
  intros H. rewrite Forall_forall in H.
  assert (Hin : exists cell, In cell (cells (fst (getBoardMatrix countingSource)))
                             /\ type cell = HOME /\ coins cell <> []).
  { eexists. split; [|split].
    - unfold cells. apply in_concat. eexists. split.
      + apply (nth_error_In _ 2). vm_compute. reflexivity.
      + apply (nth_error_In _ 2). vm_compute. reflexivity.
    - reflexivity.
    - discriminate. }
  destruct Hin as (cell & Hc & Ht & Hne).
  specialize (H cell Hc). destruct (coins cell) as [|c l]; [congruence|].
  inversion H as [|? ? [Hs _] _]. congruence.
Qed.

(* ================================================================== *)
(** * Turn state machine *)

Section ReducerLemmas.

Variable s : LudoGameState.
Variable cur : Player.
Hypothesis Hcur : getCurrentPlayer s = Some cur.

(** The player that [find] meets first is the one [map] rewrites
    first. *)
Lemma find_reducePlayerState pid st m n (ps : list Player) p :
  find (fun q => PlayerId_eqb (id q) pid) ps = Some p ->
  find (fun q => PlayerId_eqb (id q) pid)
       (map (fun q =>
               if PlayerId_eqb (id q) pid then
                 {| id := id q; state := st; playerCoins := playerCoins q;
                    movesLeft := match m with Some k => k | None => movesLeft q - 1 end;
                    nextPossibleStates :=
                      match n with Some k => k | None => nextPossibleStates q end |}
               else q) ps)
  = Some {| id := id p; state := st; playerCoins := playerCoins p;
            movesLeft := match m with Some k => k | None => movesLeft p - 1 end;
            nextPossibleStates :=
              match n with Some k => k | None => nextPossibleStates p end |}.
Proof.
  induction ps as [|q ps IH]; cbn; [discriminate|].
  destruct (PlayerId_eqb (id q) pid) eqn:E; cbn; rewrite E.
  - now intros [= ->].
  - exact IH.
Qed.

Lemma getCurrentPlayer_reduced st m n b d dice :
  getCurrentPlayer
    {| currentPlayer := currentPlayer s;
       players := reducePlayerState (currentPlayer s) st s (Some m) (Some n);
       boardMatrix := b; started := d; diceState := dice |}
  = Some {| id := id cur; state := st; playerCoins := playerCoins cur;
            movesLeft := m; nextPossibleStates := n |}.
Proof.
  unfold getCurrentPlayer, reducePlayerState; cbn.
  exact (find_reducePlayerState _ st (Some m) (Some n) _ _ Hcur).
Qed.

(** The decrement that the two reducers compute themselves is the one
    [reducePlayerState] would default to. *)
Lemma reducePlayerState_default st :
  find (fun q => PlayerId_eqb (id q) (currentPlayer s))
       (reducePlayerState (currentPlayer s) st s None None)
  = find (fun q => PlayerId_eqb (id q) (currentPlayer s))
         (reducePlayerState (currentPlayer s) st s
            (Some (movesLeft cur - 1)) (Some (nextPossibleStates cur))).
Proof.
  unfold reducePlayerState.
  rewrite (find_reducePlayerState _ st None None _ _ Hcur).
  now rewrite (find_reducePlayerState _ st (Some _) (Some _) _ _ Hcur).
Qed.


End ReducerLemmas.

Section Reducers.

Variable s : LudoGameState.
Variable cur : Player.
Hypothesis Hcur : getCurrentPlayer s = Some cur.

(** C3: clicking the dice with face [v] sets the dice to
    [{value: v, rolling: true}] and the current player to Rolling;
    a face other than 6 takes one move off the current player, a 6
    sets the moves left to 1 and the next possible states to
    [Thinking]. *)
Theorem reduceDiceClick_spec (v : Z) :
  exists s' cur',
    reduceDiceClick v s = Ok s'
    /\ getCurrentPlayer s' = Some cur'
    /\ diceState s' = {| value := v; rolling := true |}
    /\ state cur' = ROLLING
    /\ (v <> 6 -> movesLeft cur' = movesLeft cur - 1)
    /\ (v = 6 -> movesLeft cur' = 1 /\ nextPossibleStates cur' = [THINKING]).
Proof.
  unfold reduceDiceClick. rewrite Hcur.
  destruct (Z.eqb_spec v 6) as [->|Hv];
    (eexists; eexists; split; [reflexivity|];
     split; [apply (getCurrentPlayer_reduced s cur Hcur)|]; cbn; repeat split;
     congruence).
Qed.

(** C4: settling the roll clears [rolling] and sets the current player
    to Thinking; when the dice shows 6 the moves left become 1 and the
    next possible states [Moving], otherwise the next possible states
    are carried over. *)
Theorem reduceDiceRollDone_spec :
  exists s' cur',
    reduceDiceRollDone s = Ok s'
    /\ getCurrentPlayer s' = Some cur'
    /\ rolling (diceState s') = false
    /\ value (diceState s') = value (diceState s)
    /\ state cur' = THINKING
    /\ (value (diceState s) = 6 ->
        movesLeft cur' = 1 /\ nextPossibleStates cur' = [MOVING])
    /\ (value (diceState s) <> 6 ->
        nextPossibleStates cur' = nextPossibleStates cur).
Proof.
  unfold reduceDiceRollDone. rewrite Hcur.
  destruct (Z.eqb_spec (value (diceState s)) 6) as [E|Hv];
    (eexists; eexists; split; [reflexivity|];
     split; [apply (getCurrentPlayer_reduced s cur Hcur)|]; cbn; repeat split;
     congruence).
Qed.


End Reducers.

(** The first click of a new game, rolling a 4. *)
Lemma reduceDiceClick_spec_witness :
  getCurrentPlayer newGame = Some redAtStart
  /\ exists s' cur',
       reduceDiceClick 4 newGame = Ok s'
       /\ getCurrentPlayer s' = Some cur'
       /\ diceState s' = {| value := 4; rolling := true |}
       /\ state cur' = ROLLING
       /\ (4 <> 6 -> movesLeft cur' = movesLeft redAtStart - 1)
       /\ (4 = 6 -> movesLeft cur' = 1 /\ nextPossibleStates cur' = [THINKING]).
Proof.
  split; [vm_compute; reflexivity|].
  apply (reduceDiceClick_spec newGame redAtStart). vm_compute; reflexivity.
Defined.

(** Settling the dice of a new game, which shows its initial 3. *)
Lemma reduceDiceRollDone_spec_witness :
  getCurrentPlayer newGame = Some redAtStart
  /\ exists s' cur',
       reduceDiceRollDone newGame = Ok s'
       /\ getCurrentPlayer s' = Some cur'
       /\ rolling (diceState s') = false
       /\ value (diceState s') = value (diceState newGame)
       /\ state cur' = THINKING
       /\ (value (diceState newGame) = 6 ->
           movesLeft cur' = 1 /\ nextPossibleStates cur' = [MOVING])
       /\ (value (diceState newGame) <> 6 ->
           nextPossibleStates cur' = nextPossibleStates redAtStart).
Proof.
  split; [vm_compute; reflexivity|].
  apply (reduceDiceRollDone_spec newGame redAtStart). vm_compute; reflexivity.
Defined.



Section Reachability.

Variable g : UuidSource.

Lemma seated_init : seated 0 (fst (initiateGameState g)).
Proof.
  destruct g as [d n]. split; [reflexivity|].
  do 4 eexists. split; [vm_compute; reflexivity|].
  cbn. repeat split; lia.
Qed.

Lemma seated_current n s :
  seated n s -> exists r, getCurrentPlayer s = Some r
                          /\ 2 - Z.of_nat n <= movesLeft r <= 3.
Proof.
  intros (Hc & r & gp & yp & bp & Hp & (Hr & _) & _ & Hm).
  exists r. split; [|exact Hm].
  unfold getCurrentPlayer. rewrite Hc, Hp. cbn. now rewrite Hr.
Qed.

Lemma seated_reduced n s st m nps b d dice :
  seated n s ->
  2 - Z.of_nat (S n) <= m <= 3 ->
  seated (S n)
    {| currentPlayer := currentPlayer s;
       players := reducePlayerState (currentPlayer s) st s (Some m) (Some nps);
       boardMatrix := b; started := d; diceState := dice |}.
Proof.
  intros (Hc & r & gp & yp & bp & Hp & (Hr & Hg & Hy & Hb) & Hrest & Hm) Hm'.
  split; [exact Hc|]. cbn [players currentPlayer].
  unfold reducePlayerState. rewrite Hc, Hp. cbn [map].
  rewrite Hr, Hg, Hy, Hb. cbn [PlayerId_eqb].
  do 4 eexists. split; [reflexivity|]. cbn. repeat split; tauto.
Qed.

Lemma reachable_seated n s : reachable g n s -> seated n s.
Proof.
  induction 1 as [|n s s' v _ IH Hv Hstep|n s s' _ IH Hstep].
  - apply seated_init.
  - destruct (seated_current _ _ IH) as (r & Hr & Hm).
    unfold reduceDiceClick in Hstep. rewrite Hr in Hstep.
    destruct (v =? 6); injection Hstep as <-; apply seated_reduced; trivial; lia.
  - destruct (seated_current _ _ IH) as (r & Hr & Hm).
    unfold reduceDiceRollDone in Hstep. rewrite Hr in Hstep.
    destruct (value (diceState s) =? 6); injection Hstep as <-;
      apply seated_reduced; trivial; lia.
Qed.

(** No transition of a reachable state throws. *)
Lemma reachable_step_total n s (e : Event) :
  reachable g n s -> exists s', step e s = Ok s'.
Proof.
  intros H. destruct (seated_current _ _ (reachable_seated _ _ H)) as (r & Hr & _).
  destruct e as [v|]; cbn; [unfold reduceDiceClick|unfold reduceDiceRollDone];
    rewrite Hr;
    match goal with |- context [if ?b then _ else _] => destruct b end;
    eexists; reflexivity.
Qed.

(** C2, as amended: in a state reached by [n] transitions Red is still
    to play, every other player has 3 moves left, and Red has at most
    3 and at least [2 - n]; so no count is negative within the first
    two transitions. *)
Theorem movesLeft_bounds n s :
  reachable g n s ->
  currentPlayer s = RED
  /\ map id (players s) = [RED; GREEN; YELLOW; BLUE]
  /\ Forall (fun p => if PlayerId_eqb (id p) RED
                      then 2 - Z.of_nat n <= movesLeft p <= 3
                      else movesLeft p = 3) (players s)
  /\ ((n <= 2)%nat -> Forall (fun p => 0 <= movesLeft p) (players s)).
Proof.
  intros H. apply reachable_seated in H.
  destruct H as (Hc & r & gp & yp & bp & Hp & (Hr & Hg & Hy & Hb) & (Mg & My & Mb) & Hm).
  rewrite Hp. cbn [map]. rewrite Hr, Hg, Hy, Hb.
  split; [exact Hc|]. split; [reflexivity|]. split.
  - repeat constructor; rewrite ?Hr, ?Hg, ?Hy, ?Hb; cbn; tauto.
  - intros Hn. repeat constructor; lia.
Qed.

End Reachability.

(** The new game itself, reached in no transition. *)
Lemma movesLeft_bounds_witness :
  reachable countingSource 0 newGame
  /\ currentPlayer newGame = RED
  /\ map id (players newGame) = [RED; GREEN; YELLOW; BLUE]
  /\ Forall (fun p => if PlayerId_eqb (id p) RED
                      then 2 - Z.of_nat 0 <= movesLeft p <= 3
                      else movesLeft p = 3) (players newGame)
  /\ ((0 <= 2)%nat -> Forall (fun p => 0 <= movesLeft p) (players newGame)).
Proof.
  split; [apply reach_init|].
  apply (movesLeft_bounds countingSource 0 newGame). apply reach_init.
Defined.

(** C2, as stated, fails: two rounds of rolling a 4 and settling it
    leave Red with -1 moves. *)
Lemma movesLeft_negative :
  exists s,
    reachable countingSource 4 s
    /\ run [DiceClicked 4; RollSettled; DiceClicked 4; RollSettled] newGame = Ok s
    /\ map (fun p => (id p, movesLeft p)) (players s)
       = [(RED, -1); (GREEN, 3); (YELLOW, 3); (BLUE, 3)]
    /\ ~ Forall (fun p => 0 <= movesLeft p) (players s).
Proof.
  eexists. split; [|split; [|split]].
  - eapply reach_settle; [eapply reach_click with (v := 4);
      [eapply reach_settle; [eapply reach_click with (v := 4);
        [apply reach_init|lia|]|]|lia|]|]; vm_compute; reflexivity.
  - vm_compute; reflexivity.
  - vm_compute; reflexivity.
  - intros H. inversion H as [|? ? Hneg _]. vm_compute in Hneg. now apply Hneg.
Qed.

(* ================================================================== *)
(** * Easing curves *)

Section Easing.

Local Open Scope Q_scope.

Lemma Qltb_lt a b : Qltb a b = true <-> a < b.
Proof.
  unfold Qltb. rewrite negb_true_iff. split.
  - intros H. apply Qnot_le_lt. intros Hle.
    apply Qle_bool_iff in Hle. congruence.
  - intros H. destruct (Qle_bool b a) eqn:E; [|reflexivity].
    apply Qle_bool_iff in E. exfalso. exact (Qlt_not_le _ _ H E).
Qed.

Lemma Qltb_ge a b : Qltb a b = false <-> b <= a.
Proof.
  unfold Qltb. rewrite negb_false_iff. apply Qle_bool_iff.
Qed.

Lemma guard_cases (t : Q) (body : Q) :
  let r := if Qltb 1 t then Throw (TimeGreaterThanOne t)
           else if Qltb t 0 then Throw (TimeLessThanZero t)
           else Ok body in
  (throws r <-> ~ (0 <= t <= 1)) /\ (0 <= t <= 1 -> r = Ok body).
Proof.
  cbv zeta.
  destruct (Qltb 1 t) eqn:E1; [|destruct (Qltb t 0) eqn:E0].
  - apply Qltb_lt in E1. split.
    + split; [intros _ [_ H]; exact (Qlt_not_le _ _ E1 H)|intros _; now eexists].
    + intros [_ H]. exfalso. exact (Qlt_not_le _ _ E1 H).
  - apply Qltb_lt in E0. split.
    + split; [intros _ [H _]; exact (Qlt_not_le _ _ E0 H)|intros _; now eexists].
    + intros [H _]. exfalso. exact (Qlt_not_le _ _ E0 H).
  - apply Qltb_ge in E1, E0. split; [|reflexivity].
    split; [intros [e He]; discriminate He|intros H; exfalso; apply H; now split].
Qed.

Lemma easeIn_guarded : guarded easeIn (fun t => t ^ 2).
Proof. intros t. apply guard_cases. Qed.

Lemma easeOut_guarded : guarded easeOut (fun t => 1 - (1 - t) ^ 2).
Proof. intros t. apply guard_cases. Qed.

Lemma easeInOut_guarded :
  guarded easeInOut (fun t => if Qltb t (1 # 2) then 2 * t ^ 2
                              else 1 - (-2 * t + 2) ^ 2 / 2).
Proof. intros t. apply guard_cases. Qed.

(** The in-out curve at the two ends of the range, for any
    representation of 0 and of 1. *)
Lemma easeInOut_at_0 t : t == 0 -> exists f, easeInOut t = Ok f /\ f == 0.
Proof.
  intros Ht. destruct (easeInOut_guarded t) as [_ H].
  rewrite H by (rewrite Ht; split; discriminate).
  eexists. split; [reflexivity|].
  destruct (Qltb t (1 # 2)) eqn:E.
  - rewrite Ht. reflexivity.
  - apply Qltb_ge in E. rewrite Ht in E. now exfalso.
Qed.

Lemma easeInOut_at_1 t : t == 1 -> exists f, easeInOut t = Ok f /\ f == 1.
Proof.
  intros Ht. destruct (easeInOut_guarded t) as [_ H].
  rewrite H by (rewrite Ht; split; discriminate).
  eexists. split; [reflexivity|].
  destruct (Qltb t (1 # 2)) eqn:E.
  - apply Qltb_lt in E. rewrite Ht in E. discriminate E.
  - rewrite Ht. reflexivity.
Qed.

(** C10: each curve throws exactly when its argument is outside
    [0, 1], in particular at -0.01 and at 1.01; inside the range
    [easeIn t] is [t^2] and [easeOut t] is [1 - (1 - t)^2], and
    [easeInOut] maps 0, 0.5 and 1 to themselves. *)
Theorem easing_contract :
  (forall t, throws (easeIn t) <-> ~ (0 <= t <= 1))
  /\ (forall t, throws (easeOut t) <-> ~ (0 <= t <= 1))
  /\ (forall t, throws (easeInOut t) <-> ~ (0 <= t <= 1))
  /\ (throws (easeIn (- (1 # 100))) /\ throws (easeIn (101 # 100)))
  /\ (throws (easeOut (- (1 # 100))) /\ throws (easeOut (101 # 100)))
  /\ (throws (easeInOut (- (1 # 100))) /\ throws (easeInOut (101 # 100)))
  /\ (forall t, 0 <= t <= 1 -> easeIn t = Ok (t ^ 2))
  /\ (forall t, 0 <= t <= 1 -> easeOut t = Ok (1 - (1 - t) ^ 2))
  /\ (exists f, easeInOut 0 = Ok f /\ f == 0)
  /\ (exists f, easeInOut (1 # 2) = Ok f /\ f == 1 # 2)
  /\ (exists f, easeInOut 1 = Ok f /\ f == 1).
Proof.
  repeat match goal with |- _ /\ _ => split end;
    try (intros t; apply easeIn_guarded);
    try (intros t; apply easeOut_guarded);
    try (intros t; apply easeInOut_guarded);
    try (eexists; reflexivity);
    try (eexists; split; reflexivity).
Qed.

(** The three curves at a quarter of the way. *)
Lemma easing_contract_witness :
  (0 <= 1 # 4 <= 1)
  /\ easeIn (1 # 4) = Ok ((1 # 4) ^ 2)
  /\ easeOut (1 # 4) = Ok (1 - (1 - (1 # 4)) ^ 2)
  /\ ~ throws (easeInOut (1 # 4)).
Proof.
  assert (inside : 0 <= 1 # 4 <= 1) by (split; discriminate).
  destruct easing_contract as (_ & _ & range & _ & _ & _ & square & out & _).
  split; [exact inside|]. split; [exact (square _ inside)|].
  split; [exact (out _ inside)|].
  intros raised. apply (proj1 (range _)) in raised. exact (raised inside).
Defined.

End Easing.

(* ================================================================== *)
(** * Animation ticks *)

Section CoinSlide.

Local Open Scope Q_scope.

Variables (start end_ : Vertex) (rest : list Vertex).
Variables (cellSize animationDuration now : Q) (renderPath : bool).
Variable w : Window.
Hypothesis positive : 0 < animationDuration.

Lemma divide_positive a : divide a animationDuration = Some (a / animationDuration).
Proof.
  unfold divide. destruct (Qeq_bool animationDuration 0) eqn:E; [|reflexivity].
  apply Qeq_bool_iff in E. rewrite E in positive. discriminate positive.
Qed.

Lemma lerp_at_0 a b f : f == 0 -> a + (b - a) * f == a.
Proof. intros ->. ring. Qed.

(** C8, as amended.  On the tick that finds the start-time slot empty
    the time is recorded and no coin is drawn.  On a later tick, with
    [t0] the recorded time: when [now - t0] exceeds the duration the
    slot is cleared, the completion callback fires once and no coin is
    drawn; when [now - t0] equals the duration the easing factor is 1,
    the coin is drawn at [start + (end - start) * 1] as the code
    evaluates it, and nothing else happens; when [now - t0] is 0 the
    coin is drawn at the start vertex. *)
Theorem animateCoins_tick :
  (armed (ludoAnimationStartTime w) = None ->
   animateCoins (start :: end_ :: rest) cellSize renderPath animationDuration now w
   = Some (Ok ({| ludoAnimationStartTime := Some now;
                  animationStartTime := animationStartTime w;
                  lastDiceValue := lastDiceValue w |}, guideLine renderPath start end_)))
  /\ forall t0,
      armed (ludoAnimationStartTime w) = Some t0 ->
      (animationDuration < now - t0 ->
       animateCoins (start :: end_ :: rest) cellSize renderPath animationDuration now w
       = Some (Ok ({| ludoAnimationStartTime := None;
                      animationStartTime := animationStartTime w;
                      lastDiceValue := lastDiceValue w |},
                   guideLine renderPath start end_ ++ [OnAnimationComplete])))
      /\ (now - t0 == animationDuration ->
          exists f,
            easeInOut ((now - t0) / animationDuration) = Ok f
            /\ f == 1
            /\ animateCoins (start :: end_ :: rest) cellSize renderPath
                            animationDuration now w
               = Some (Ok (w, guideLine renderPath start end_
                              ++ [RenderCoin
                                    {| x := x start + (x end_ - x start) * f;
                                       y := y start + (y end_ - y start) * f |}
                                    RED cellSize])))
      /\ (now - t0 == 0 ->
          exists pos,
            animateCoins (start :: end_ :: rest) cellSize renderPath animationDuration now w
            = Some (Ok (w, guideLine renderPath start end_ ++ [RenderCoin pos RED cellSize]))
            /\ sameVertex pos start).
Proof.
  split; [intros Ha; cbn; now rewrite Ha|].
  intros t0 Ha. cbn. rewrite Ha. repeat split.
  - intros Hlt. apply Qltb_lt in Hlt. now rewrite Hlt.
  - intros He.
    assert (Hge : Qltb animationDuration (now - t0) = false)
      by (apply Qltb_ge; rewrite He; apply Qle_refl).
    rewrite Hge, divide_positive.
    destruct (easeInOut_at_1 ((now - t0) / animationDuration)) as (f & Hf & Hf1).
    { rewrite He. field. intros E. rewrite E in positive. discriminate positive. }
    exists f. split; [exact Hf|]. split; [exact Hf1|]. now rewrite Hf.
  - intros He.
    assert (Hge : Qltb animationDuration (now - t0) = false)
      by (apply Qltb_ge; rewrite He; now apply Qlt_le_weak).
    rewrite Hge, divide_positive.
    destruct (easeInOut_at_0 ((now - t0) / animationDuration)) as (f & -> & Hf).
    { rewrite He. field. intros E. rewrite E in positive. discriminate positive. }
    eexists. split; [reflexivity|]. split; cbn; now apply lerp_at_0.
Qed.

End CoinSlide.

(** A 500 ms slide armed at 100 ms, ticked at 600 ms. *)
Lemma animateCoins_tick_witness :
  (0 < 500)%Q
  /\ exists f,
       easeInOut ((600 - 100) / 500) = Ok f
       /\ (f == 1)%Q
       /\ animateCoins [{| x := 25; y := 25 |}; {| x := 325; y := 125 |}] 50 true 500 600
            {| ludoAnimationStartTime := Some 100%Q;
               animationStartTime := None; lastDiceValue := None |}
          = Some (Ok ({| ludoAnimationStartTime := Some 100%Q;
                         animationStartTime := None; lastDiceValue := None |},
                      guideLine true {| x := 25; y := 25 |} {| x := 325; y := 125 |}
                      ++ [RenderCoin {| x := 25 + (325 - 25) * f;
                                        y := 25 + (125 - 25) * f |}%Q RED 50])).
Proof.
  split; [reflexivity|].
  destruct (animateCoins_tick {| x := 25; y := 25 |} {| x := 325; y := 125 |} []
              50 500 600 true
              {| ludoAnimationStartTime := Some 100%Q;
                 animationStartTime := None; lastDiceValue := None |}
              eq_refl) as [_ later].
  destruct (later 100%Q eq_refl) as (_ & atDuration & _).
  apply atDuration. reflexivity.
Defined.

(** C8, as stated, fails on both sides of the boundary: with a 500 ms
    slide started at 100 ms, the tick at 600 ms (elapsed = duration)
    draws a coin but neither fires the callback nor clears the slot,
    and the tick at 601 ms fires the callback and draws no coin at
    all. *)
Lemma animateCoins_at_and_beyond_duration :
  let path := [{| x := 25; y := 25 |}; {| x := 325; y := 125 |}] in
  let w := {| ludoAnimationStartTime := Some 100%Q;
              animationStartTime := None; lastDiceValue := None |} in
  (exists w' fx,
      animateCoins path 50 true 500 600 w = Some (Ok (w', fx))
      /\ completions fx = 0%nat
      /\ ludoAnimationStartTime w' = Some 100%Q)
  /\ (exists w' fx,
         animateCoins path 50 true 500 601 w = Some (Ok (w', fx))
         /\ completions fx = 1%nat
         /\ coinsRendered fx = []).
Proof.
  cbv zeta. split; eexists; eexists; (split; [vm_compute; reflexivity|]);
    split; reflexivity.
Qed.

(** Why the statement above leaves the interpolation at the factor 1 as
    the code writes it: evaluated in binary64, the interpolation from
    0.2 to 0.9 at the factor 1 falls short of 0.9. *)
#[warnings="-inexact-float"]
Lemma interpolate64_misses_end :
  (PrimFloat.eqb (interpolate64 0.2 0.9 1) 0.9 = false
   /\ PrimFloat.ltb (interpolate64 0.2 0.9 1) 0.9 = true)%float.
Proof. split; vm_compute; reflexivity. Qed.

Section DiceRoll.

Local Open Scope Q_scope.

Variables (diceState : DiceState) (height width animationDuration : Q).
Variables (now ticket random : Q).
Variable w : Window.

(** C9, as amended.  On the tick of a rolling dice whose elapsed time
    exceeds the duration, the face painted is the face retained from
    the previous tick (the rolled value when none is retained); then
    the retained face is set to the rolled value, the start-time slot
    to 0, and the completion callback fires, all on that tick.  A dice
    at rest is painted with its rolled value. *)
Theorem animateDiceFace_completion :
  (forall t0,
      rolling diceState = true ->
      armed (animationStartTime w) = Some t0 ->
      animationDuration < now - t0 ->
      animateDiceFace diceState height width animationDuration now ticket random w
      = Some (Ok ({| ludoAnimationStartTime := ludoAnimationStartTime w;
                     animationStartTime := Some 0;
                     lastDiceValue := Some (value diceState) |},
                  [RenderDiceFace (orValue (lastDiceValue w) (value diceState))
                                  (mathMin height width);
                   ConsoleLog "animation done";
                   OnRollDone])))
  /\ (rolling diceState = false ->
      animateDiceFace diceState height width animationDuration now ticket random w
      = Some (Ok (w, [RenderDiceFace (value diceState) (mathMin height width)]))).
Proof.
  unfold animateDiceFace. split.
  - intros t0 -> -> Hlt. apply Qltb_lt in Hlt. now rewrite Hlt.
  - now intros ->.
Qed.

End DiceRoll.

(** A dice that rolled a 5 and last showed a 2, armed at 100 ms with a
    2000 ms roll, ticked at 2101 ms. *)
Lemma animateDiceFace_completion_witness :
  ((2000 < 2101 - 100)%Q)
  /\ animateDiceFace {| value := 5; rolling := true |} 150 150 2000 2101 (1 # 2) (1 # 2)
       {| ludoAnimationStartTime := None;
          animationStartTime := Some 100%Q; lastDiceValue := Some 2 |}
     = Some (Ok ({| ludoAnimationStartTime := None;
                    animationStartTime := Some 0%Q;
                    lastDiceValue := Some 5 |},
                 [RenderDiceFace 2 (mathMin 150 150);
                  ConsoleLog "animation done";
                  OnRollDone])).
Proof.
  split; [reflexivity|].
  destruct (animateDiceFace_completion {| value := 5; rolling := true |} 150 150 2000
              2101 (1 # 2) (1 # 2)
              {| ludoAnimationStartTime := None;
                 animationStartTime := Some 100%Q; lastDiceValue := Some 2 |})
    as [completion _].
  apply (completion 100%Q); reflexivity.
Defined.

(** C9, as stated, fails: a dice that rolled a 5 and flickered to a 2 on
    the previous tick is painted as a 2 on the completion tick; the 5 is
    only retained. *)
Lemma animateDiceFace_paints_stale_face :
  let w := {| ludoAnimationStartTime := None;
              animationStartTime := Some 100%Q; lastDiceValue := Some 2%Z |} in
  exists w' fx,
    animateDiceFace {| value := 5; rolling := true |} 150 150 2000 2101
                    (1 # 2) (1 # 2) w = Some (Ok (w', fx))
    /\ facesRendered fx = [2%Z]
    /\ rollsDone fx = 1%nat
    /\ lastDiceValue w' = Some 5%Z.
Proof.
  cbv zeta. eexists; eexists. split; [vm_compute; reflexivity|].
  repeat split.
Qed.

(* ================================================================== *)
(** * Further properties of the board model *)

Section Coins.

Variables r c : Z.
Variable g : UuidSource.

(** X1: for any row and column, [createCoinInstance] returns one coin
    when the position lies in a home nest and none otherwise; the coin
    belongs to the player of that nest, sits at the position asked for
    and carries the next uuid, and as many uuids are consumed as coins
    are returned. *)
Theorem createCoinInstance_spec :
  let (coins, g') := createCoinInstance r c g in
  (List.length coins <= 1)%nat
  /\ drawn g' = (List.length coins + drawn g)%nat
  /\ draw g' = draw g
  /\ (forall p, homeNest p {| row := r; col := c |} = true ->
                coins = [{| coinId := draw g (drawn g); player := p;
                            position := {| row := r; col := c |} |}])
  /\ ((forall p, homeNest p {| row := r; col := c |} = false) -> coins = []).
Proof.
  unfold createCoinInstance, bind, ret, push, uuid, homeNest; cbn [row col].
  destruct (Z.eqb_spec r 2) as [->|R2]; [|destruct (Z.eqb_spec r 3) as [->|R3];
    [|destruct (Z.eqb_spec r 11) as [->|R11]; [|destruct (Z.eqb_spec r 12) as [->|R12]]]];
  (destruct (Z.eqb_spec c 2) as [->|C2]; [|destruct (Z.eqb_spec c 3) as [->|C3];
    [|destruct (Z.eqb_spec c 11) as [->|C11]; [|destruct (Z.eqb_spec c 12) as [->|C12]]]]);
  cbn; repeat split; try lia;
    try (intros []; cbn; intros E; try discriminate E; try reflexivity;
         exfalso; revert E;
         rewrite ?andb_true_iff, ?Z.leb_le; lia);
    try (intros H; reflexivity);
    try (intros H; exfalso;
         first [specialize (H RED); cbn in H; discriminate H
               |specialize (H GREEN); cbn in H; discriminate H
               |specialize (H BLUE); cbn in H; discriminate H
               |specialize (H YELLOW); cbn in H; discriminate H]).
Qed.

End Coins.

Section BoardIndexing.

Variable g : UuidSource.

Lemma nth_error_map_eq {A B} (f : A -> B) (l : list A) (l' : list B) i b :
  map f l = l' -> nth_error l' i = Some b ->
  exists a, nth_error l i = Some a /\ f a = b.
Proof.
  intros <-. rewrite nth_error_map.
  destruct (nth_error l i) as [a|]; cbn; [|discriminate].
  intros [= <-]. now exists a.
Qed.

Lemma nth_error_upto n i :
  (i < Z.to_nat n)%nat -> nth_error (upto n) i = Some (Z.of_nat i).
Proof.
  intros H. unfold upto. rewrite nth_error_map.
  rewrite (nth_error_nth' _ 0%nat) by now rewrite length_seq.
  now rewrite seq_nth.
Qed.

Lemma board_table :
  map (map (fun cell => (cellId cell, cellPosition cell))) (fst (getBoardMatrix g))
  = map (fun i => map (fun j => (15 * i + j, {| row := i; col := j |})) (upto 15))
        (upto 15).
Proof. destruct g as [d n]. vm_compute. reflexivity. Qed.

Lemma board_cell i j :
  (i < 15)%nat -> (j < 15)%nat ->
  exists cell,
    cellAt (fst (getBoardMatrix g)) i j = Some cell
    /\ cellId cell = 15 * Z.of_nat i + Z.of_nat j
    /\ cellPosition cell = {| row := Z.of_nat i; col := Z.of_nat j |}.
Proof.
  intros Hi Hj. unfold cellAt.
  destruct (nth_error_map_eq _ _ _ i
              (map (fun j => (15 * Z.of_nat i + j, {| row := Z.of_nat i; col := j |}))
                   (upto 15))
              board_table) as (cellRow & -> & Hrow).
  { rewrite nth_error_map, nth_error_upto by exact Hi. reflexivity. }
  destruct (nth_error_map_eq _ _ _ j
              (15 * Z.of_nat i + Z.of_nat j,
               {| row := Z.of_nat i; col := Z.of_nat j |}) Hrow)
    as (cell & -> & Hcell).
  { rewrite nth_error_map, nth_error_upto by exact Hj. reflexivity. }
  exists cell. injection Hcell as -> ->. repeat split.
Qed.

Lemma cells_indexed cell :
  In cell (cells (fst (getBoardMatrix g))) ->
  exists i j, (i < 15)%nat /\ (j < 15)%nat
              /\ cellAt (fst (getBoardMatrix g)) i j = Some cell.
Proof.
  unfold cells. rewrite in_concat. intros (cellRow & Hrow & Hcell).
  destruct (In_nth_error _ _ Hrow) as (i & Hi).
  destruct (In_nth_error _ _ Hcell) as (j & Hj).
  assert (Li : (i < 15)%nat).
  { assert (Hi' : nth_error (fst (getBoardMatrix g)) i <> None) by congruence.
    apply nth_error_Some in Hi'. revert Hi'.
    replace (List.length (fst (getBoardMatrix g))) with 15%nat; [trivial|].
    destruct g; vm_compute; reflexivity. }
  assert (Lj : (j < 15)%nat).
  { assert (Hj' : nth_error cellRow j <> None) by congruence.
    apply nth_error_Some in Hj'. revert Hj'.
    replace (List.length cellRow) with 15%nat; [trivial|].
    assert (H : Forall (fun l => List.length l = 15%nat) (fst (getBoardMatrix g)))
      by (destruct g; vm_compute; repeat constructor).
    rewrite Forall_forall in H. symmetry. now apply H. }
  exists i, j. unfold cellAt. rewrite Hi. auto.
Qed.

Lemma cells_position cell :
  In cell (cells (fst (getBoardMatrix g))) ->
  exists i j, (i < 15)%nat /\ (j < 15)%nat
              /\ cellAt (fst (getBoardMatrix g)) i j = Some cell
              /\ cellPosition cell = {| row := Z.of_nat i; col := Z.of_nat j |}.
Proof.
  intros H. destruct (cells_indexed _ H) as (i & j & Hi & Hj & Hc).
  destruct (board_cell i j Hi Hj) as (cell' & Hc' & _ & Hp).
  exists i, j. repeat split; trivial. congruence.
Qed.

(** X2: the board has 15 rows of 15 cells, the cell ids run from 0 to
    224 in row-major order, and the cell stored at row [i], column [j]
    has id [15 * i + j] and position [(i, j)]. *)
Theorem getBoardMatrix_indexing :
  map (@List.length Cell) (fst (getBoardMatrix g)) = repeat 15%nat 15
  /\ map cellId (cells (fst (getBoardMatrix g))) = upto 225
  /\ forall i j, (i < 15)%nat -> (j < 15)%nat ->
       exists cell,
         cellAt (fst (getBoardMatrix g)) i j = Some cell
         /\ cellId cell = 15 * Z.of_nat i + Z.of_nat j
         /\ cellPosition cell = {| row := Z.of_nat i; col := Z.of_nat j |}.
Proof.
  split; [|split].
  - destruct g; vm_compute; reflexivity.
  - destruct g; vm_compute; reflexivity.
  - exact board_cell.
Qed.

(** X3: the three masks agree.  Every cell that has an owner is painted
    in the colour of its owner and is a Safe, Start or Finish cell; each
    player owns one Start cell, five Safe cells and one Finish cell; and
    the Start cells are those four and one more, at row 12, column 8,
    that has no owner. *)
Theorem owned_cells_consistent :
  Forall (fun cell =>
            match cellPlayer cell with
            | Some p => color cell = getPlayerColor (Some p)
                        /\ (type cell = SAFE \/ type cell = START \/ type cell = FINISH)
            | None => True
            end) (cells (fst (getBoardMatrix g)))
  /\ (forall p,
        map (fun t => List.length (filter (fun cell => ownedBy p cell && isType t cell)
                                          (cells (fst (getBoardMatrix g)))))
            [START; SAFE; FINISH; HOME; NORMAL; WALL]
        = [1; 5; 1; 0; 0; 0]%nat)
  /\ map (fun cell => (cellPosition cell, cellPlayer cell))
         (filter (isType START) (cells (fst (getBoardMatrix g))))
     = [({| row := 1; col := 8 |}, Some GREEN);
        ({| row := 6; col := 1 |}, Some RED);
        ({| row := 8; col := 13 |}, Some YELLOW);
        ({| row := 12; col := 8 |}, None);
        ({| row := 13; col := 6 |}, Some BLUE)].
Proof.
  destruct g as [d n]. split; [|split].
  - vm_compute. repeat apply Forall_cons; try apply Forall_nil; try exact I;
      (split; [reflexivity|]);
      first [left; reflexivity|right; left; reflexivity|right; right; reflexivity].
  - intros []; vm_compute; reflexivity.
  - vm_compute. reflexivity.
Qed.

End BoardIndexing.

Section Geometry.

Local Open Scope Q_scope.

Lemma Z_lt_inject a b : (a < b)%Z <-> inject_Z a < inject_Z b.
Proof. now rewrite Zlt_Qlt. Qed.

Lemma Z_le_inject a b : (a <= b)%Z <-> inject_Z a <= inject_Z b.
Proof. now rewrite Zle_Qle. Qed.

Lemma Qfloor_unique q z : inject_Z z <= q < inject_Z (z + 1) -> Qfloor q = z.
Proof.
  intros [Hlo Hhi].
  pose proof (Qfloor_le q) as Fl. pose proof (Qlt_floor q) as Fh.
  assert (H1 : (z < Qfloor q + 1)%Z)
    by (apply (proj2 (Z_lt_inject _ _)); eapply Qle_lt_trans; eassumption).
  assert (H2 : (Qfloor q < z + 1)%Z)
    by (apply (proj2 (Z_lt_inject _ _)); eapply Qle_lt_trans; eassumption).
  lia.
Qed.

Lemma Qfloor_in_range q n :
  (0 <= Qfloor q < n)%Z <-> 0 <= q < inject_Z n.
Proof.
  pose proof (Qfloor_le q) as Fl. pose proof (Qlt_floor q) as Fh. split.
  - intros [Hlo Hhi]. split.
    + eapply Qle_trans; [|exact Fl]. change 0 with (inject_Z 0).
      now apply (proj1 (Z_le_inject _ _)).
    + eapply Qlt_le_trans; [exact Fh|]. apply (proj1 (Z_le_inject _ _)). lia.
  - intros [Hlo Hhi]. split.
    + assert (H : (0 < Qfloor q + 1)%Z)
        by (apply (proj2 (Z_lt_inject _ _)); eapply Qle_lt_trans; eassumption).
      lia.
    + apply (proj2 (Z_lt_inject _ _)). eapply Qle_lt_trans; eassumption.
Qed.

Variable canvasHeight : Q.
Hypothesis positive : 0 < canvasHeight.

Local Abbreviation cellSize := (cellSizeOf canvasHeight).

Lemma cellSize_positive : 0 < cellSize.
Proof.
  unfold cellSizeOf, Qdiv. apply Qmult_lt_0_compat; [exact positive|reflexivity].
Qed.

Lemma cellSize_nonzero : ~ cellSize == 0.
Proof.
  intros E. pose proof cellSize_positive as H. rewrite E in H. discriminate H.
Qed.

Lemma board_width : inject_Z BOARD_SIZE * cellSize == canvasHeight.
Proof. unfold cellSizeOf. field. discriminate. Qed.

(** Pixels to cells: the quotient is in [0, 15) exactly when the pixel
    is in [0, canvasHeight). *)
Lemma quotient_in_range v :
  0 <= v / cellSize < inject_Z BOARD_SIZE <-> 0 <= v < canvasHeight.
Proof.
  pose proof cellSize_positive as P.
  assert (E : v / cellSize * cellSize == v) by (field; apply cellSize_nonzero).
  set (q := v / cellSize) in *. split.
  - intros [Hlo Hhi]. split.
    + assert (H : 0 <= q * cellSize)
        by (apply Qmult_le_0_compat; [exact Hlo|now apply Qlt_le_weak]).
      now rewrite E in H.
    + assert (H : q * cellSize < inject_Z BOARD_SIZE * cellSize)
        by now apply Qmult_lt_r.
      now rewrite E, board_width in H.
  - intros [Hlo Hhi]. split.
    + apply (Qmult_le_r _ _ cellSize P). now rewrite Qmult_0_l, E.
    + apply (Qmult_lt_r _ _ cellSize P). now rewrite E, board_width.
Qed.

Variable g : UuidSource.
Variables rectLeft rectTop : Q.

(** X4: clicking the centre of any cell of the board, as
    [getCellCenter] computes it for cells of a fifteenth of the canvas,
    selects that very cell. *)
Theorem getClickedCell_getCellCenter (cell : Cell) :
  In cell (cells (fst (getBoardMatrix g))) ->
  getClickedCell (x (getCellCenter cell cellSize) + rectLeft)
                 (y (getCellCenter cell cellSize) + rectTop)
                 rectLeft rectTop canvasHeight (fst (getBoardMatrix g))
  = Some (Ok (Some cell)).
Proof.
  intros Hin. destruct (cells_position g cell Hin) as (i & j & Hi & Hj & Hc & Hp).
  unfold getClickedCell. cbv zeta.
  rewrite !(divide_positive _ cellSize_positive).
  unfold getCellCenter. rewrite Hp. cbn [x y row col].
  assert (Fr : Qfloor ((inject_Z (Z.of_nat i) * cellSize + cellSize / 2 + rectTop - rectTop)
                       / cellSize) = Z.of_nat i).
  { apply Qfloor_unique. rewrite inject_Z_plus.
    setoid_replace ((inject_Z (Z.of_nat i) * cellSize + cellSize / 2 + rectTop - rectTop)
                    / cellSize) with (inject_Z (Z.of_nat i) + (1 # 2))
      by (field; apply cellSize_nonzero).
    split.
    - rewrite <- (Qplus_0_r (inject_Z (Z.of_nat i))) at 1.
      apply Qplus_le_r. discriminate.
    - apply Qplus_lt_r. reflexivity. }
  assert (Fc : Qfloor ((inject_Z (Z.of_nat j) * cellSize + cellSize / 2 + rectLeft - rectLeft)
                       / cellSize) = Z.of_nat j).
  { apply Qfloor_unique. rewrite inject_Z_plus.
    setoid_replace ((inject_Z (Z.of_nat j) * cellSize + cellSize / 2 + rectLeft - rectLeft)
                    / cellSize) with (inject_Z (Z.of_nat j) + (1 # 2))
      by (field; apply cellSize_nonzero).
    split.
    - rewrite <- (Qplus_0_r (inject_Z (Z.of_nat j))) at 1.
      apply Qplus_le_r. discriminate.
    - apply Qplus_lt_r. reflexivity. }
  rewrite Fr, Fc, !Nat2Z.id.
  replace ((Z.of_nat i <? 0)%Z || (Z.of_nat i >=? BOARD_SIZE)%Z
           || (Z.of_nat j <? 0)%Z || (Z.of_nat j >=? BOARD_SIZE)%Z) with false.
  - unfold cellAt in Hc. destruct (nth_error (fst (getBoardMatrix g)) i);
      [now rewrite Hc|discriminate Hc].
  - symmetry. unfold BOARD_SIZE. rewrite !orb_false_iff, !Z.ltb_ge, !Z.geb_leb, !Z.leb_gt.
    lia.
Qed.

(** X5: a click well inside the square of a cell selects that cell, and
    a click well outside the canvas, on any side, selects nothing;
    well meaning by a thousandth of a cell or more.  On the board of
    [getBoardMatrix] neither case throws. *)
Theorem getClickedCell_bounds (clientX clientY : Q) :
  let px := clientX - rectLeft in
  let py := clientY - rectTop in
  let margin := cellSize / 1000 in
  let clicked := getClickedCell clientX clientY rectLeft rectTop canvasHeight
                                (fst (getBoardMatrix g)) in
  (forall i j : nat,
      (i < 15)%nat -> (j < 15)%nat ->
      inject_Z (Z.of_nat j) * cellSize + margin <= px
      <= inject_Z (Z.of_nat j) * cellSize + cellSize - margin ->
      inject_Z (Z.of_nat i) * cellSize + margin <= py
      <= inject_Z (Z.of_nat i) * cellSize + cellSize - margin ->
      exists cell,
        clicked = Some (Ok (Some cell))
        /\ cellAt (fst (getBoardMatrix g)) i j = Some cell
        /\ cellPosition cell = {| row := Z.of_nat i; col := Z.of_nat j |})
  /\ (px <= - margin \/ canvasHeight + margin <= px
      \/ py <= - margin \/ canvasHeight + margin <= py ->
      clicked = Some (Ok None)).
Proof.
  cbv zeta. unfold getClickedCell. cbv zeta.
  rewrite !(divide_positive _ cellSize_positive).
  set (px := clientX - rectLeft). set (py := clientY - rectTop).
  pose proof cellSize_positive as P.
  assert (M : 0 < cellSize / 1000)
    by (unfold Qdiv; apply Qmult_lt_0_compat; [exact P|reflexivity]).
  set (margin := cellSize / 1000) in *.
  assert (inCell : forall (k : nat) (v : Q),
             inject_Z (Z.of_nat k) * cellSize + margin <= v
             <= inject_Z (Z.of_nat k) * cellSize + cellSize - margin ->
             Qfloor (v / cellSize) = Z.of_nat k).
  { intros k v [Hlo Hhi]. apply Qfloor_unique. rewrite inject_Z_plus. split.
    - apply Qle_shift_div_l; [exact P|]. lra.
    - apply Qlt_shift_div_r; [exact P|].
      setoid_replace ((inject_Z (Z.of_nat k) + inject_Z 1) * cellSize)
        with (inject_Z (Z.of_nat k) * cellSize + cellSize) by ring.
      lra. }
  split.
  - intros i j Hi Hj Hx Hy.
    rewrite (inCell j px Hx), (inCell i py Hy), !Nat2Z.id.
    replace ((Z.of_nat i <? 0)%Z || (Z.of_nat i >=? BOARD_SIZE)%Z
             || (Z.of_nat j <? 0)%Z || (Z.of_nat j >=? BOARD_SIZE)%Z) with false
      by (symmetry; unfold BOARD_SIZE;
          rewrite !orb_false_iff, !Z.ltb_ge, !Z.geb_leb, !Z.leb_gt; lia).
    destruct (board_cell g i j Hi Hj) as (cell & Hc & _ & Hp).
    exists cell. split; [|split; [exact Hc|exact Hp]].
    unfold cellAt in Hc.
    destruct (nth_error (fst (getBoardMatrix g)) i); [now rewrite Hc|discriminate Hc].
  - intros Hout.
    pose proof (Qfloor_in_range (px / cellSize) BOARD_SIZE) as Rx.
    pose proof (Qfloor_in_range (py / cellSize) BOARD_SIZE) as Ry.
    rewrite quotient_in_range in Rx, Ry.
    set (cx := Qfloor (px / cellSize)) in *. set (cy := Qfloor (py / cellSize)) in *.
    replace ((cy <? 0)%Z || (cy >=? BOARD_SIZE)%Z
             || (cx <? 0)%Z || (cx >=? BOARD_SIZE)%Z) with true; [reflexivity|].
    symmetry. rewrite !orb_true_iff, !Z.ltb_lt, !Z.geb_leb, !Z.leb_le.
    destruct (Z_lt_dec cy 0); [tauto|]. destruct (Z_le_dec BOARD_SIZE cy); [tauto|].
    destruct (Z_lt_dec cx 0); [tauto|]. destruct (Z_le_dec BOARD_SIZE cx); [tauto|].
    exfalso.
    assert (Ix : 0 <= px < canvasHeight) by (apply Rx; lia).
    assert (Iy : 0 <= py < canvasHeight) by (apply Ry; lia).
    destruct Ix as [Ix0 Ix1], Iy as [Iy0 Iy1].
    destruct Hout as [Ho|[Ho|[Ho|Ho]]]; lra.
Qed.

End Geometry.

(* ================================================================== *)
(** * Further properties of the turn state machine *)

Section Lookup.

Variable s : LudoGameState.

(** X6: looking a player up by id returns a player of the roster with
    that id, and returns [undefined] only when the roster has no such
    player; [getCurrentPlayer] is the lookup of [currentPlayer], and
    [getPlayerState] throws exactly when the lookup finds nothing. *)
Theorem getPlayer_spec (playerId : PlayerId) :
  match getPlayer playerId s with
  | Some p => id p = playerId /\ In p (players s)
              /\ getPlayerState playerId (players s) = Ok (state p)
  | None => (forall p, In p (players s) -> id p <> playerId)
            /\ getPlayerState playerId (players s) = Throw TypeError
  end
  /\ getCurrentPlayer s = getPlayer (currentPlayer s) s.
Proof.
  split; [|reflexivity].
  unfold getPlayer, getPlayerState.
  destruct (find _ (players s)) as [p|] eqn:E.
  - apply find_some in E. destruct E as [Hin Hid].
    destruct (id p), playerId; try discriminate Hid; auto.
  - split; [|reflexivity]. intros p Hin Hid.
    pose proof (find_none _ _ E p Hin) as H. cbn in H.
    rewrite Hid in H. now destruct playerId.
Qed.

(** X7: each reducer throws, and then a TypeError, exactly when no
    player of the roster has the id of the current player. *)
Theorem reducers_throw_iff :
  (getCurrentPlayer s = None <->
   forall p, In p (players s) -> id p <> currentPlayer s)
  /\ (forall v, getCurrentPlayer s = None <-> reduceDiceClick v s = Throw TypeError)
  /\ (getCurrentPlayer s = None <-> reduceDiceRollDone s = Throw TypeError)
  /\ (forall v e, reduceDiceClick v s = Throw e -> e = TypeError)
  /\ (forall e, reduceDiceRollDone s = Throw e -> e = TypeError).
Proof.
  unfold reduceDiceClick, reduceDiceRollDone, getCurrentPlayer.
  destruct (find _ (players s)) as [p|] eqn:E.
  - apply find_some in E. destruct E as [Hin Hid].
    repeat split; try discriminate; intros.
    + exfalso. apply (H p Hin). destruct (id p), (currentPlayer s); easy.
    + destruct (v =? 6); discriminate.
    + destruct (value (diceState s) =? 6); discriminate.
    + destruct (v =? 6); discriminate.
    + destruct (value (diceState s) =? 6); discriminate.
  - repeat split; trivial; try congruence.
    intros _ p Hin Hid. pose proof (find_none _ _ E p Hin) as H. cbn in H.
    rewrite Hid in H. now destruct (currentPlayer s).
Qed.

End Lookup.

Section Frame.

Lemma reducePlayerState_frame pid st gs m n :
  map id (reducePlayerState pid st gs m n) = map id (players gs)
  /\ map playerCoins (reducePlayerState pid st gs m n) = map playerCoins (players gs)
  /\ forall i p, nth_error (players gs) i = Some p -> id p <> pid ->
                 nth_error (reducePlayerState pid st gs m n) i = Some p.
Proof.
  unfold reducePlayerState. repeat split.
  - rewrite map_map. apply map_ext. intros p.
    now destruct (PlayerId_eqb (id p) pid).
  - rewrite map_map. apply map_ext. intros p.
    now destruct (PlayerId_eqb (id p) pid).
  - intros i p Hp Hid. rewrite nth_error_map, Hp. cbn.
    destruct (PlayerId_eqb (id p) pid) eqn:E; [|reflexivity].
    exfalso. apply Hid. destruct (id p), pid; easy.
Qed.

(** X8: a transition changes nothing but the dice and the players with
    the id of the current player: the current player, the board and the
    [started] flag are kept, the roster keeps its length, its order, its
    ids and every player's coins, and every player with another id is
    left exactly as it was. *)
Theorem step_frame (e : Event) (s s' : LudoGameState) :
  step e s = Ok s' ->
  currentPlayer s' = currentPlayer s
  /\ boardMatrix s' = boardMatrix s
  /\ started s' = started s
  /\ map id (players s') = map id (players s)
  /\ map playerCoins (players s') = map playerCoins (players s)
  /\ forall i p, nth_error (players s) i = Some p -> id p <> currentPlayer s ->
                 nth_error (players s') i = Some p.
Proof.
  destruct e as [v|]; cbn; [unfold reduceDiceClick|unfold reduceDiceRollDone];
    destruct (getCurrentPlayer s) as [cur|]; try discriminate;
    match goal with |- context [if ?b then _ else _] => destruct b end;
    intros [= <-]; cbn [currentPlayer boardMatrix started players];
    repeat split; apply reducePlayerState_frame.
Qed.

(** Red's first roll leaves Green, Yellow and Blue as they were. *)
Lemma step_frame_witness :
  step (DiceClicked 4) newGame = Ok afterFirstClick
  /\ currentPlayer afterFirstClick = currentPlayer newGame
  /\ boardMatrix afterFirstClick = boardMatrix newGame
  /\ started afterFirstClick = started newGame
  /\ map id (players afterFirstClick) = map id (players newGame)
  /\ map playerCoins (players afterFirstClick) = map playerCoins (players newGame)
  /\ forall i p, nth_error (players newGame) i = Some p -> id p <> currentPlayer newGame ->
                 nth_error (players afterFirstClick) i = Some p.
Proof.
  split; [vm_compute; reflexivity|].
  apply (step_frame (DiceClicked 4) newGame afterFirstClick).
  vm_compute; reflexivity.
Defined.

End Frame.

Section Progress.

Variable g : UuidSource.

Lemma inPlay_init : inPlay g 0 (fst (initiateGameState g)).
Proof.
  destruct g as [d n].
  split; [reflexivity|]. split; [reflexivity|]. split; [reflexivity|].
  split; [vm_compute; split; discriminate|].
  do 4 eexists. split; [vm_compute; reflexivity|]. cbn. repeat split.
Qed.

Lemma inPlay_reduced n s m nps (b : bool) (st : PlayerState) v :
  inPlay g n s -> 1 <= v <= 6 ->
  st = (if b then ROLLING else THINKING) ->
  inPlay g (S n)
    {| currentPlayer := currentPlayer s;
       players := reducePlayerState (currentPlayer s) st s (Some m) (Some nps);
       boardMatrix := boardMatrix s; started := started s;
       diceState := {| value := v; rolling := b |} |}.
Proof.
  intros (Hc & Hs & Hb & Hv & r & gp & yp & bp & Hp & (Hr & Hg & Hy & Hbl) & Hst & _) Hv' ->.
  split; [exact Hc|]. split; [exact Hs|]. split; [exact Hb|]. split; [exact Hv'|].
  cbn [players currentPlayer diceState rolling].
  unfold reducePlayerState. rewrite Hc, Hp. cbn [map].
  rewrite Hr, Hg, Hy, Hbl. cbn [PlayerId_eqb].
  do 4 eexists. split; [reflexivity|]. cbn. repeat split; tauto.
Qed.

Lemma inPlay_current n s : inPlay g n s -> exists r, getCurrentPlayer s = Some r.
Proof.
  intros (Hc & _ & _ & _ & r & gp & yp & bp & Hp & (Hr & _) & _).
  exists r. unfold getCurrentPlayer. rewrite Hc, Hp. cbn. now rewrite Hr.
Qed.

Lemma reachable_inPlay n s : reachable g n s -> inPlay g n s.
Proof.
  induction 1 as [|n s s' v _ IH Hv Hstep|n s s' _ IH Hstep].
  - apply inPlay_init.
  - destruct (inPlay_current _ _ IH) as (r & Hr).
    unfold reduceDiceClick in Hstep. rewrite Hr in Hstep.
    destruct (v =? 6); injection Hstep as <-;
      now apply (inPlay_reduced n s _ _ true).
  - destruct (inPlay_current _ _ IH) as (r & Hr).
    unfold reduceDiceRollDone in Hstep. rewrite Hr in Hstep.
    destruct (value (diceState s) =? 6); injection Hstep as <-;
      apply (inPlay_reduced n s _ _ false); trivial; apply IH.
Qed.

(** X9: in every state reachable from a new game, the board is the
    initial board, [started] is still false, the dice shows a face from
    1 to 6, and the state of each of the four players can be looked up
    without an exception: Green, Yellow and Blue have not started, and
    Red, once the game has left its initial state, is Rolling exactly
    while the dice is rolling and Thinking otherwise. *)
Theorem reachable_invariants n s :
  reachable g n s ->
  boardMatrix s = boardMatrix (fst (initiateGameState g))
  /\ started s = false
  /\ 1 <= value (diceState s) <= 6
  /\ getPlayerState RED (players s)
     = Ok (match n with
           | O => NOT_STARTED
           | S _ => if rolling (diceState s) then ROLLING else THINKING
           end)
  /\ forall playerId, playerId <> RED ->
       getPlayerState playerId (players s) = Ok NOT_STARTED.
Proof.
  intros H. apply reachable_inPlay in H.
  destruct H as (Hc & Hs & Hb & Hv & r & gp & yp & bp & Hp
                 & (Hr & Hg & Hy & Hbl) & (Sg & Sy & Sb) & Sr).
  repeat split; trivial; try lia.
  - unfold getPlayerState. rewrite Hp. cbn. rewrite Hr. cbn. now rewrite Sr.
  - intros pid Hpid. unfold getPlayerState. rewrite Hp. cbn.
    rewrite Hr, Hg, Hy, Hbl.
    destruct pid; cbn; congruence.
Qed.

End Progress.

(** The new game itself. *)
Lemma reachable_invariants_witness :
  reachable countingSource 0 newGame
  /\ boardMatrix newGame = boardMatrix (fst (initiateGameState countingSource))
  /\ started newGame = false
  /\ 1 <= value (diceState newGame) <= 6
  /\ getPlayerState RED (players newGame) = Ok NOT_STARTED
  /\ forall playerId, playerId <> RED ->
       getPlayerState playerId (players newGame) = Ok NOT_STARTED.
Proof.
  split; [apply reach_init|].
  apply (reachable_invariants countingSource 0 newGame). apply reach_init.
Defined.

Section Cycles.

Variable s : LudoGameState.
Variable cur : Player.
Hypothesis Hcur : getCurrentPlayer s = Some cur.

Lemma reduceDiceClick_eq v :
  reduceDiceClick v s
  = Ok {| currentPlayer := currentPlayer s;
          players := reducePlayerState (currentPlayer s) ROLLING s
                       (Some (if v =? 6 then 1 else movesLeft cur - 1))
                       (Some (if v =? 6 then [THINKING] else nextPossibleStates cur));
          boardMatrix := boardMatrix s; started := started s;
          diceState := {| value := v; rolling := true |} |}.
Proof. unfold reduceDiceClick. rewrite Hcur. now destruct (v =? 6). Qed.

Lemma reduceDiceRollDone_eq :
  reduceDiceRollDone s
  = Ok {| currentPlayer := currentPlayer s;
          players := reducePlayerState (currentPlayer s) THINKING s
                       (Some (if value (diceState s) =? 6 then 1 else movesLeft cur - 1))
                       (Some (if value (diceState s) =? 6 then [MOVING]
                              else nextPossibleStates cur));
          boardMatrix := boardMatrix s; started := started s;
          diceState := {| value := value (diceState s); rolling := false |} |}.
Proof.
  unfold reduceDiceRollDone. rewrite Hcur. now destruct (value (diceState s) =? 6).
Qed.

End Cycles.

Section Composition.

Lemma reducePlayerState_idempotent pid st gs m n cp b d dice :
  reducePlayerState pid st
    {| currentPlayer := cp;
       players := reducePlayerState pid st gs (Some m) (Some n);
       boardMatrix := b; started := d; diceState := dice |} (Some m) (Some n)
  = reducePlayerState pid st gs (Some m) (Some n).
Proof.
  unfold reducePlayerState; cbn [players]. rewrite map_map. apply map_ext.
  intros p. destruct (PlayerId_eqb (id p) pid) eqn:E; cbn [id]; now rewrite E.
Qed.

(** X10: rolling a 6 and settling it leaves the current player Thinking
    with exactly one move and [Moving] as the only next state, whatever
    the player had before; and settling that state once more changes
    nothing. *)
Theorem six_cycle (s : LudoGameState) (cur : Player) :
  getCurrentPlayer s = Some cur ->
  exists s1 s2 cur2,
    reduceDiceClick 6 s = Ok s1
    /\ reduceDiceRollDone s1 = Ok s2
    /\ getCurrentPlayer s2 = Some cur2
    /\ diceState s2 = {| value := 6; rolling := false |}
    /\ state cur2 = THINKING
    /\ movesLeft cur2 = 1
    /\ nextPossibleStates cur2 = [MOVING]
    /\ reduceDiceRollDone s2 = Ok s2.
Proof.
  intros Hcur.
  pose proof (getCurrentPlayer_reduced s cur Hcur ROLLING 1 [THINKING]
                (boardMatrix s) (started s) {| value := 6; rolling := true |}) as H1.
  pose proof (getCurrentPlayer_reduced _ _ H1 THINKING 1 [MOVING]
                (boardMatrix s) (started s) {| value := 6; rolling := false |}) as H2.
  do 3 eexists.
  split; [exact (reduceDiceClick_eq s cur Hcur 6)|].
  split; [exact (reduceDiceRollDone_eq _ _ H1)|].
  split; [exact H2|].
  split; [reflexivity|]. split; [reflexivity|]. split; [reflexivity|].
  split; [reflexivity|].
  refine (eq_trans (reduceDiceRollDone_eq _ _ H2) _).
  cbn [currentPlayer players boardMatrix started diceState value Z.eqb Pos.eqb].
  now rewrite reducePlayerState_idempotent.
Qed.

(** Red's first six. *)
Lemma six_cycle_witness :
  getCurrentPlayer newGame = Some redAtStart
  /\ exists s1 s2 cur2,
       reduceDiceClick 6 newGame = Ok s1
       /\ reduceDiceRollDone s1 = Ok s2
       /\ getCurrentPlayer s2 = Some cur2
       /\ diceState s2 = {| value := 6; rolling := false |}
       /\ state cur2 = THINKING
       /\ movesLeft cur2 = 1
       /\ nextPossibleStates cur2 = [MOVING]
       /\ reduceDiceRollDone s2 = Ok s2.
Proof.
  split; [vm_compute; reflexivity|].
  apply (six_cycle newGame redAtStart). vm_compute; reflexivity.
Defined.

(** X11: when the dice does not show a 6 and no 6 is rolled, every
    event of a run, click or settle, costs the current player exactly
    one move, and the run never throws: after a run of [k] events the
    player has [k] moves less and the same next possible states. *)
Theorem noSix_run_cost (es : list Event) :
  forall (s : LudoGameState) (cur : Player),
    getCurrentPlayer s = Some cur ->
    value (diceState s) <> 6 ->
    noSix es = true ->
    exists s' cur',
      run es s = Ok s'
      /\ getCurrentPlayer s' = Some cur'
      /\ movesLeft cur' = movesLeft cur - Z.of_nat (List.length es)
      /\ nextPossibleStates cur' = nextPossibleStates cur.
Proof.
  induction es as [|e es IH]; intros s cur Hcur Hd Hes.
  - exists s, cur. cbn. repeat split; trivial. lia.
  - cbn [noSix forallb] in Hes. apply andb_true_iff in Hes. destruct Hes as [He Hes].
    destruct e as [v|]; cbn [run step].
    + apply negb_true_iff in He.
      rewrite (reduceDiceClick_eq s cur Hcur v), He.
      destruct (IH _ _ (getCurrentPlayer_reduced s cur Hcur ROLLING
                          (movesLeft cur - 1) (nextPossibleStates cur)
                          (boardMatrix s) (started s)
                          {| value := v; rolling := true |}))
        as (s' & cur' & Hrun & Hc' & Hm & Hn);
        [cbn; now apply Z.eqb_neq|exact Hes|].
      exists s', cur'. cbn [movesLeft nextPossibleStates List.length] in *.
      repeat split; trivial. lia.
    + rewrite (reduceDiceRollDone_eq s cur Hcur).
      destruct (Z.eqb_spec (value (diceState s)) 6) as [E|_]; [contradiction|].
      destruct (IH _ _ (getCurrentPlayer_reduced s cur Hcur THINKING
                          (movesLeft cur - 1) (nextPossibleStates cur)
                          (boardMatrix s) (started s)
                          {| value := value (diceState s); rolling := false |}))
        as (s' & cur' & Hrun & Hc' & Hm & Hn); [exact Hd|exact Hes|].
      exists s', cur'. cbn [movesLeft nextPossibleStates List.length] in *.
      repeat split; trivial. lia.
Qed.

(** Two rounds of rolling a 4 and settling it, from a new game. *)
Lemma noSix_run_cost_witness :
  (getCurrentPlayer newGame = Some redAtStart
   /\ value (diceState newGame) <> 6
   /\ noSix [DiceClicked 4; RollSettled; DiceClicked 4; RollSettled] = true)
  /\ exists s' cur',
       run [DiceClicked 4; RollSettled; DiceClicked 4; RollSettled] newGame = Ok s'
       /\ getCurrentPlayer s' = Some cur'
       /\ movesLeft cur' = movesLeft redAtStart - Z.of_nat 4
       /\ nextPossibleStates cur' = nextPossibleStates redAtStart.
Proof.
  split; [split; [vm_compute; reflexivity|split; [vm_compute; discriminate|reflexivity]]|].
  apply (noSix_run_cost [DiceClicked 4; RollSettled; DiceClicked 4; RollSettled]
           newGame redAtStart);
    [vm_compute; reflexivity|vm_compute; discriminate|reflexivity].
Defined.

End Composition.

(* ================================================================== *)
(** * Further properties of the easing curves *)

Section EasingShape.

Local Open Scope Q_scope.

Lemma square t : t ^ 2 == t * t.
Proof. reflexivity. Qed.

(** The value of [easeInOut] inside the range, by halves. *)
Lemma easeInOut_value t :
  0 <= t <= 1 ->
  exists c, easeInOut t = Ok c
            /\ (t < 1 # 2 -> c == 2 * (t * t))
            /\ (1 # 2 <= t -> c == 1 - 2 * ((1 - t) * (1 - t))).
Proof.
  intros Ht. destruct (easeInOut_guarded t) as [_ H]. rewrite (H Ht).
  eexists. split; [reflexivity|].
  destruct (Qltb t (1 # 2)) eqn:E.
  - apply Qltb_lt in E. split; [intros _; now rewrite square|].
    intros Hge. exfalso. exact (Qlt_not_le _ _ E Hge).
  - apply Qltb_ge in E. split; [intros Hlt; exfalso; exact (Qlt_not_le _ _ Hlt E)|].
    intros _. rewrite square. field.
Qed.

Lemma easeInOut_unit t :
  0 <= t <= 1 -> exists c, easeInOut t = Ok c /\ 0 <= c <= 1.
Proof.
  intros Ht. destruct (easeInOut_value t Ht) as (c & Hc & Hlo & Hhi).
  exists c. split; [exact Hc|]. destruct Ht. split; nra.
Qed.

Lemma easeOut_unit t :
  0 <= t <= 1 -> exists b, easeOut t = Ok b /\ 0 <= b <= 1 /\ b == 1 - (1 - t) * (1 - t).
Proof.
  intros Ht. destruct (easeOut_guarded t) as [_ H].
  exists (1 - (1 - t) ^ 2). split; [exact (H Ht)|].
  rewrite square. destruct Ht. split; [split; nra|reflexivity].
Qed.

(** The elapsed share of a positive duration. *)
Lemma share_in_unit d a : 0 < d -> 0 <= a <= d -> 0 <= a / d <= 1.
Proof.
  intros Hd [Hlo Hhi]. split.
  - apply Qle_shift_div_l; [exact Hd|]. lra.
  - apply Qle_shift_div_r; [exact Hd|]. lra.
Qed.

(** X12: inside [0, 1] no curve throws and every curve stays inside
    [0, 1]; [easeIn] runs below the diagonal and [easeOut] above it. *)
Theorem easing_range t :
  0 <= t <= 1 ->
  exists a b c,
    easeIn t = Ok a /\ easeOut t = Ok b /\ easeInOut t = Ok c
    /\ 0 <= a <= t /\ t <= b <= 1 /\ 0 <= c <= 1.
Proof.
  intros Ht. destruct (easeInOut_value t Ht) as (c & Hc & Hlo & Hhi).
  destruct (easeIn_guarded t) as [_ Hin]. destruct (easeOut_guarded t) as [_ Hout].
  exists (t ^ 2), (1 - (1 - t) ^ 2), c.
  split; [exact (Hin Ht)|]. split; [exact (Hout Ht)|]. split; [exact Hc|].
  rewrite !square. destruct Ht as [H0 H1].
  repeat split; nra.
Qed.

(** X13: the three curves are monotone on [0, 1]. *)
Theorem easing_monotone s t :
  0 <= s -> s <= t -> t <= 1 ->
  exists a a' b b' c c',
    (easeIn s = Ok a /\ easeIn t = Ok a' /\ a <= a')
    /\ (easeOut s = Ok b /\ easeOut t = Ok b' /\ b <= b')
    /\ (easeInOut s = Ok c /\ easeInOut t = Ok c' /\ c <= c').
Proof.
  intros H0 Hst H1.
  assert (Hs : 0 <= s <= 1) by (split; [exact H0|now apply Qle_trans with t]).
  assert (Ht : 0 <= t <= 1) by (split; [now apply Qle_trans with s|exact H1]).
  destruct (easeInOut_value s Hs) as (c & Hc & Clo & Chi).
  destruct (easeInOut_value t Ht) as (c' & Hc' & Clo' & Chi').
  destruct (easeIn_guarded s) as [_ Is]. destruct (easeIn_guarded t) as [_ It].
  destruct (easeOut_guarded s) as [_ Os]. destruct (easeOut_guarded t) as [_ Ot].
  exists (s ^ 2), (t ^ 2), (1 - (1 - s) ^ 2), (1 - (1 - t) ^ 2), c, c'.
  rewrite (Is Hs), (It Ht), (Os Hs), (Ot Ht).
  repeat split; trivial; rewrite ?square; nra.
Qed.

(** X14: [easeOut] mirrors [easeIn]: inside [0, 1] the value of
    [easeOut] at [t] is 1 less the value of [easeIn] at [1 - t], the
    very expression [1 - (1 - t) ** 2] that the code evaluates. *)
Theorem easing_symmetry t :
  0 <= t <= 1 ->
  exists a, easeIn (1 - t) = Ok a /\ easeOut t = Ok (1 - a).
Proof.
  intros Ht.
  assert (Ht' : 0 <= 1 - t <= 1) by (destruct Ht; split; lra).
  destruct (easeIn_guarded (1 - t)) as [_ Hin]. destruct (easeOut_guarded t) as [_ Hout].
  exists ((1 - t) ^ 2). split; [exact (Hin Ht')|exact (Hout Ht)].
Qed.

(** The three curves a quarter and three quarters of the way. *)
Lemma easing_range_witness :
  0 <= 1 # 4 <= 1
  /\ exists a b c,
       easeIn (1 # 4) = Ok a /\ easeOut (1 # 4) = Ok b /\ easeInOut (1 # 4) = Ok c
       /\ 0 <= a <= 1 # 4 /\ 1 # 4 <= b <= 1 /\ 0 <= c <= 1.
Proof.
  assert (inside : 0 <= 1 # 4 <= 1) by (split; discriminate).
  split; [exact inside|]. exact (easing_range (1 # 4) inside).
Defined.

Lemma easing_monotone_witness :
  (0 <= 1 # 4 /\ 1 # 4 <= 3 # 4 /\ 3 # 4 <= 1)
  /\ exists a a' b b' c c',
       (easeIn (1 # 4) = Ok a /\ easeIn (3 # 4) = Ok a' /\ a <= a')
       /\ (easeOut (1 # 4) = Ok b /\ easeOut (3 # 4) = Ok b' /\ b <= b')
       /\ (easeInOut (1 # 4) = Ok c /\ easeInOut (3 # 4) = Ok c' /\ c <= c').
Proof.
  split; [repeat split; discriminate|].
  apply (easing_monotone (1 # 4) (3 # 4)); discriminate.
Defined.

Lemma easing_symmetry_witness :
  0 <= 1 # 4 <= 1
  /\ exists a, easeIn (1 - (1 # 4)) = Ok a /\ easeOut (1 # 4) = Ok (1 - a).
Proof.
  assert (inside : 0 <= 1 # 4 <= 1) by (split; discriminate).
  split; [exact inside|]. exact (easing_symmetry (1 # 4) inside).
Defined.

End EasingShape.

(* ================================================================== *)
(** * Further properties of the animation ticks *)

Section CoinSlideRun.

Local Open Scope Q_scope.

Variables (start end_ : Vertex) (rest : list Vertex).
Variables (cellSize animationDuration now : Q) (renderPath : bool).
Variable w : Window.
Hypothesis positive : 0 < animationDuration.

(** X15: while a slide is under way, that is from the recorded start
    time to the end of the duration, the tick does not throw, leaves the
    slots alone and draws the coin at [start + (end - start) * f], the
    expression the code evaluates, where [f] is what [easeInOut] gives
    for the elapsed share of the duration, a number between 0 and 1. *)
Theorem animateCoins_interpolates (t0 : Q) :
  armed (ludoAnimationStartTime w) = Some t0 ->
  t0 <= now -> now - t0 <= animationDuration ->
  exists f,
    easeInOut ((now - t0) / animationDuration) = Ok f
    /\ 0 <= f <= 1
    /\ animateCoins (start :: end_ :: rest) cellSize renderPath animationDuration now w
       = Some (Ok (w, guideLine renderPath start end_
                      ++ [RenderCoin {| x := x start + (x end_ - x start) * f;
                                        y := y start + (y end_ - y start) * f |}
                                     RED cellSize])).
Proof.
  intros Ha Hlo Hhi.
  destruct (easeInOut_unit ((now - t0) / animationDuration)) as (f & Hf & Hf01).
  { apply share_in_unit; [exact positive|split; lra]. }
  exists f. split; [exact Hf|]. split; [exact Hf01|].
  cbn. rewrite Ha.
  assert (Hge : Qltb animationDuration (now - t0) = false) by now apply Qltb_ge.
  now rewrite Hge, (divide_positive _ positive), Hf.
Qed.

(** X16: with a positive duration the tick throws exactly when the
    clock reads less than the recorded start time, and what it throws is
    the error of [easeInOut] for a time below 0. *)
Theorem animateCoins_throws_iff :
  (forall e,
      animateCoins (start :: end_ :: rest) cellSize renderPath animationDuration now w
      = Some (Throw e) ->
      exists t0, armed (ludoAnimationStartTime w) = Some t0 /\ now < t0)
  /\ (forall t0,
        armed (ludoAnimationStartTime w) = Some t0 -> now < t0 ->
        animateCoins (start :: end_ :: rest) cellSize renderPath animationDuration now w
        = Some (Throw (TimeLessThanZero ((now - t0) / animationDuration)))).
Proof.
  cbn. destruct (armed (ludoAnimationStartTime w)) as [t0|].
  - destruct (Qlt_le_dec now t0) as [Lt|Ge].
    + split; [intros; now exists t0|]. intros t [= <-] _.
      assert (Hge : Qltb animationDuration (now - t0) = false)
        by (apply Qltb_ge; lra).
      rewrite Hge, (divide_positive _ positive).
      assert (Hneg : (now - t0) / animationDuration < 0).
      { apply Qlt_shift_div_r; [exact positive|]. lra. }
      unfold easeInOut.
      assert (H1 : Qltb 1 ((now - t0) / animationDuration) = false)
        by (apply Qltb_ge; lra).
      apply Qltb_lt in Hneg. now rewrite H1, Hneg.
    + split; [|intros t [= <-] Hlt; exfalso; exact (Qlt_not_le _ _ Hlt Ge)].
      intros e He. exfalso.
      destruct (Qltb animationDuration (now - t0)) eqn:Hcmp; [discriminate He|].
      apply Qltb_ge in Hcmp.
      destruct (easeInOut_unit ((now - t0) / animationDuration)) as (f & Hf & _).
      { apply share_in_unit; [exact positive|split; lra]. }
      rewrite (divide_positive _ positive), Hf in He. discriminate He.
  - split; [intros e He; discriminate He|intros t0 H; discriminate H].
Qed.

End CoinSlideRun.

(** A 500 ms slide armed at 100 ms, ticked half way at 350 ms. *)
Lemma animateCoins_interpolates_witness :
  ((0 < 500)%Q
   /\ armed (Some 100%Q) = Some 100%Q /\ (100 <= 350)%Q /\ (350 - 100 <= 500)%Q)
  /\ exists f,
       easeInOut ((350 - 100) / 500) = Ok f
       /\ (0 <= f <= 1)%Q
       /\ animateCoins [{| x := 25; y := 25 |}; {| x := 325; y := 125 |}] 50 true 500 350
            {| ludoAnimationStartTime := Some 100%Q;
               animationStartTime := None; lastDiceValue := None |}
          = Some (Ok ({| ludoAnimationStartTime := Some 100%Q;
                         animationStartTime := None; lastDiceValue := None |},
                      guideLine true {| x := 25; y := 25 |} {| x := 325; y := 125 |}
                      ++ [RenderCoin {| x := 25 + (325 - 25) * f;
                                        y := 25 + (125 - 25) * f |}%Q RED 50])).
Proof.
  split; [repeat split; discriminate|].
  apply (animateCoins_interpolates {| x := 25; y := 25 |} {| x := 325; y := 125 |} []
           50 500 350 true
           {| ludoAnimationStartTime := Some 100%Q;
              animationStartTime := None; lastDiceValue := None |}
           eq_refl 100%Q eq_refl); discriminate.
Defined.

(** A slot that holds 400 ms when the clock reads 350 ms. *)
Lemma animateCoins_throws_iff_witness :
  ((0 < 500)%Q /\ armed (Some 400%Q) = Some 400%Q /\ (350 < 400)%Q)
  /\ animateCoins [{| x := 25; y := 25 |}; {| x := 325; y := 125 |}] 50 true 500 350
       {| ludoAnimationStartTime := Some 400%Q;
          animationStartTime := None; lastDiceValue := None |}
     = Some (Throw (TimeLessThanZero ((350 - 400) / 500))).
Proof.
  split; [repeat split|].
  destruct (animateCoins_throws_iff {| x := 25; y := 25 |} {| x := 325; y := 125 |} []
              50 500 350 true
              {| ludoAnimationStartTime := Some 400%Q;
                 animationStartTime := None; lastDiceValue := None |}
              eq_refl) as [_ thrown].
  apply (thrown 400%Q); reflexivity.
Defined.

Section TickEffects.

Local Open Scope Q_scope.

Lemma completions_guideLine renderPath start end_ tail :
  completions (guideLine renderPath start end_ ++ tail) = completions tail
  /\ coinsRendered (guideLine renderPath start end_ ++ tail) = coinsRendered tail.
Proof. now destruct renderPath. Qed.

(** X17: what one call of [animateCoins] can do.  It never touches the
    two slots of the dice; it fires the completion callback at most
    once and draws at most one coin; it fires the callback exactly when
    the path has two points, the slot holds a start time and more than
    the duration has elapsed since, and then it clears the slot and
    draws no coin; and on a path of fewer than two points it does
    nothing at all. *)
Theorem animateCoins_effects (animationPath : list Vertex) (cellSize : Q)
    (renderPath : bool) (animationDuration now : Q) (w w' : Window) (fx : list Effect) :
  animateCoins animationPath cellSize renderPath animationDuration now w
  = Some (Ok (w', fx)) ->
  (animationStartTime w' = animationStartTime w /\ lastDiceValue w' = lastDiceValue w)
  /\ (completions fx <= 1)%nat
  /\ (List.length (coinsRendered fx) <= 1)%nat
  /\ (completions fx = 1%nat <->
      (2 <= List.length animationPath)%nat
      /\ exists t0, armed (ludoAnimationStartTime w) = Some t0
                    /\ animationDuration < now - t0)
  /\ (completions fx = 1%nat ->
      ludoAnimationStartTime w' = None /\ coinsRendered fx = [])
  /\ ((List.length animationPath < 2)%nat -> w' = w /\ fx = []).
Proof.
  unfold animateCoins.
  destruct animationPath as [|start [|end_ rest]];
    try (intros [= <- <-]; cbn; repeat split; try lia; try discriminate;
         intros [H _]; cbn in H; lia).
  destruct (armed (ludoAnimationStartTime w)) as [t0|] eqn:Ha.
  - destruct (Qltb animationDuration (now - t0)) eqn:Hcmp.
    + intros [= <- <-].
      destruct (completions_guideLine renderPath start end_ [OnAnimationComplete])
        as [-> ->]. cbn.
      repeat split; try lia. exists t0. split; [reflexivity|now apply Qltb_lt].
    + destruct (divide (now - t0) animationDuration) as [t|]; [|discriminate].
      destruct (easeInOut t) as [f|]; [|discriminate].
      intros [= <- <-].
      match goal with |- context [RenderCoin ?v ?p ?c] =>
        destruct (completions_guideLine renderPath start end_ [RenderCoin v p c])
          as [-> ->] end.
      cbn. repeat split; try lia; try discriminate.
      intros (_ & t1 & [= <-] & Hlt). apply Qltb_lt in Hlt. congruence.
  - intros [= <- <-].
    destruct (completions_guideLine renderPath start end_ []) as [Hc Hr].
    rewrite app_nil_r in Hc, Hr. rewrite Hc, Hr. cbn.
    repeat split; try lia; try discriminate.
    intros (_ & t1 & H & _). discriminate H.
Qed.

End TickEffects.

(** The tick that completes a 500 ms slide armed at 100 ms. *)
Lemma animateCoins_effects_witness :
  let w := {| ludoAnimationStartTime := Some 100%Q;
              animationStartTime := Some 7%Q; lastDiceValue := Some 2 |} in
  let w' := {| ludoAnimationStartTime := None;
               animationStartTime := Some 7%Q; lastDiceValue := Some 2 |} in
  let path := [{| x := 25; y := 25 |}; {| x := 325; y := 125 |}] in
  let fx := [OnAnimationComplete] in
  animateCoins path 50 false 500 601 w = Some (Ok (w', fx))
  /\ (animationStartTime w' = animationStartTime w /\ lastDiceValue w' = lastDiceValue w)
  /\ (completions fx <= 1)%nat
  /\ (List.length (coinsRendered fx) <= 1)%nat
  /\ (completions fx = 1%nat <->
      (2 <= List.length path)%nat
      /\ exists t0, armed (ludoAnimationStartTime w) = Some t0 /\ (500 < 601 - t0)%Q)
  /\ (completions fx = 1%nat -> ludoAnimationStartTime w' = None /\ coinsRendered fx = [])
  /\ ((List.length path < 2)%nat -> w' = w /\ fx = []).
Proof.
  cbv zeta. split; [vm_compute; reflexivity|].
  apply (animateCoins_effects _ 50 false 500 601). vm_compute; reflexivity.
Defined.

Section DiceTick.

Local Open Scope Q_scope.

Variables (diceState : DiceState) (height width animationDuration : Q).
Variables (now ticket random : Q).
Variable w : Window.

Lemma getRandomDiceValue_faces_aux r :
  0 <= r < 1 -> (1 <= getRandomDiceValue r <= 6)%Z.
Proof.
  intros [Hlo Hhi]. unfold getRandomDiceValue.
  assert (Hr : (0 <= Qfloor (r * 6) < 6)%Z)
    by (apply (Qfloor_in_range (r * 6) 6); change (inject_Z 6) with 6; split; lra).
  lia.
Qed.

(** X18: the buckets of [getRandomDiceValue].  A random number in
    [0, 1) gives a face from 1 to 6, and it gives the face [k] whenever
    six times the number lies between [k - 1] and [k], a millionth or
    more away from both. *)
Theorem getRandomDiceValue_faces :
  0 <= random < 1 ->
  (1 <= getRandomDiceValue random <= 6)%Z
  /\ forall k,
       inject_Z (k - 1) + (1 # 1000000) <= random * 6 <= inject_Z k - (1 # 1000000) ->
       getRandomDiceValue random = k.
Proof.
  intros Hr. split; [now apply getRandomDiceValue_faces_aux|].
  intros k [Hlo Hhi]. unfold getRandomDiceValue.
  assert (Hk : Qfloor (random * 6) = (k - 1)%Z).
  { apply Qfloor_unique. replace (k - 1 + 1)%Z with k by lia. split; lra. }
  lia.
Qed.

Lemma orValue_valid slot v :
  validFace slot -> (1 <= v <= 6)%Z -> (1 <= orValue slot v <= 6)%Z.
Proof.
  destruct slot as [l|]; cbn; [|trivial].
  intros Hl Hv. destruct (Z.eqb_spec l 0); lia.
Qed.

(** X19: a tick paints exactly one face, and a face of the dice: when
    the rolled value is a face, the retained face (if any) is a face and
    the random number lies in [0, 1), the face painted is between 1 and
    6 and so is the face retained afterwards. *)
Theorem animateDiceFace_faces (w' : Window) (fx : list Effect) :
  (1 <= value diceState <= 6)%Z ->
  validFace (lastDiceValue w) ->
  0 <= random < 1 ->
  animateDiceFace diceState height width animationDuration now ticket random w
  = Some (Ok (w', fx)) ->
  validFace (lastDiceValue w')
  /\ exists v, facesRendered fx = [v] /\ (1 <= v <= 6)%Z.
Proof.
  intros Hv Hl Hr. pose proof (orValue_valid _ _ Hl Hv) as Ho.
  pose proof (getRandomDiceValue_faces_aux random Hr) as Hg.
  unfold animateDiceFace. destruct (rolling diceState).
  - destruct (armed (animationStartTime w)) as [t0|].
    + destruct (Qltb animationDuration (now - t0)).
      * intros [= <- <-]. cbn. split; [exact Hv|]. eexists; split; [reflexivity|exact Ho].
      * destruct (divide (now - t0) animationDuration) as [t|]; [|discriminate].
        destruct (easeOut t) as [p|]; [|discriminate].
        destruct (Qltb ticket p); cbn; intros [= <- <-]; cbn;
          (split; [trivial|eexists; split; [reflexivity|exact Ho]]).
    + cbn. intros [= <- <-]. cbn. split; [exact Hg|].
      eexists; split; [reflexivity|exact Ho].
  - intros [= <- <-]. split; [exact Hl|]. eexists; split; [reflexivity|exact Hv].
Qed.

End DiceTick.

(** A random number well inside the fourth sixth: the face is 4. *)
Lemma getRandomDiceValue_faces_witness :
  ((0 <= 5 # 9 < 1)%Q
   /\ (inject_Z (4 - 1) + (1 # 1000000) <= (5 # 9) * 6 <= inject_Z 4 - (1 # 1000000))%Q)
  /\ 1 <= getRandomDiceValue (5 # 9) <= 6
  /\ getRandomDiceValue (5 # 9) = 4.
Proof.
  assert (inside : (0 <= 5 # 9 < 1)%Q) by (split; [discriminate|reflexivity]).
  assert (fourth : (inject_Z (4 - 1) + (1 # 1000000) <= (5 # 9) * 6
                    <= inject_Z 4 - (1 # 1000000))%Q) by (split; discriminate).
  split; [split; [exact inside|exact fourth]|].
  destruct (getRandomDiceValue_faces (5 # 9) inside) as [range bucket].
  split; [exact range|exact (bucket 4 fourth)].
Defined.

(** The first tick of a roll of 5, with no face retained. *)
Lemma animateDiceFace_faces_witness :
  let ds := {| value := 5; rolling := true |} in
  let w := {| ludoAnimationStartTime := None;
              animationStartTime := None; lastDiceValue := None |} in
  let w' := {| ludoAnimationStartTime := None;
               animationStartTime := Some 100%Q; lastDiceValue := Some 4 |} in
  let fx := [RenderDiceFace 5 150] in
  (1 <= value ds <= 6
   /\ validFace (lastDiceValue w)
   /\ (0 <= 5 # 9 < 1)%Q
   /\ animateDiceFace ds 150 150 2000 100 (1 # 2) (5 # 9) w = Some (Ok (w', fx)))
  /\ validFace (lastDiceValue w')
  /\ exists v, facesRendered fx = [v] /\ 1 <= v <= 6.
Proof.
  cbv zeta.
  assert (face : 1 <= 5 <= 6) by lia.
  assert (inside : (0 <= 5 # 9 < 1)%Q) by (split; [discriminate|reflexivity]).
  split; [repeat split; try discriminate; vm_compute; reflexivity|].
  apply (animateDiceFace_faces {| value := 5; rolling := true |} 150 150 2000 100
           (1 # 2) (5 # 9)
           {| ludoAnimationStartTime := None;
              animationStartTime := None; lastDiceValue := None |});
    [exact face|exact I|exact inside|vm_compute; reflexivity].
Defined.

Section DiceRun.

Local Open Scope Q_scope.

Variables (diceState : DiceState) (height width animationDuration : Q).
Variables (now ticket random : Q).
Variable w : Window.

(** X20: what one call of [animateDiceFace] can do.  It never touches
    the slot of the coin slide; it fires the completion callback at most
    once, and exactly when the dice is rolling, the slot holds a start
    time and more than the duration has elapsed since; it then leaves
    the start-time slot empty for the next roll and retains the rolled
    value; and for a dice at rest it changes nothing. *)
Theorem animateDiceFace_effects (w' : Window) (fx : list Effect) :
  animateDiceFace diceState height width animationDuration now ticket random w
  = Some (Ok (w', fx)) ->
  ludoAnimationStartTime w' = ludoAnimationStartTime w
  /\ (rollsDone fx <= 1)%nat
  /\ (rollsDone fx = 1%nat <->
      rolling diceState = true
      /\ exists t0, armed (animationStartTime w) = Some t0
                    /\ animationDuration < now - t0)
  /\ (rollsDone fx = 1%nat ->
      armed (animationStartTime w') = None
      /\ lastDiceValue w' = Some (value diceState))
  /\ (rolling diceState = false -> w' = w).
Proof.
  unfold animateDiceFace. destruct (rolling diceState).
  - destruct (armed (animationStartTime w)) as [t0|] eqn:Ha.
    + destruct (Qltb animationDuration (now - t0)) eqn:Hcmp.
      * intros [= <- <-]. cbn. repeat split; try lia; try discriminate.
        exists t0. split; [reflexivity|now apply Qltb_lt].
      * destruct (divide (now - t0) animationDuration) as [t|]; [|discriminate].
        destruct (easeOut t) as [p|]; [|discriminate].
        destruct (Qltb ticket p); cbn; intros [= <- <-]; cbn;
          repeat split; try lia; try discriminate;
          intros (_ & t1 & [= <-] & Hlt); apply Qltb_lt in Hlt; congruence.
    + cbn. intros [= <- <-]. cbn. repeat split; try lia; try discriminate.
      intros (_ & t1 & H & _). discriminate H.
  - intros [= <- <-]. cbn. repeat split; try lia; try discriminate.
Qed.

Hypothesis positive : 0 < animationDuration.
Hypothesis isRolling : rolling diceState = true.

(** X21: the flicker of a rolling dice.  Between the recorded start
    time and the end of the duration the tick paints the retained face
    and then keeps it when the ticket is below the ease-out value of the
    elapsed share, a number between 0 and 1, and draws a new random face
    otherwise.  So on a tick at the start time itself a new face is
    always drawn, and on a tick exactly at the end of the duration the
    face is always kept.  When the clock reads less than the start time
    the tick throws the error of [easeOut] for a time below 0. *)
Theorem animateDiceFace_flicker (t0 : Q) :
  armed (animationStartTime w) = Some t0 ->
  let painted := [RenderDiceFace (orValue (lastDiceValue w) (value diceState))
                                 (mathMin height width)] in
  let redrawn := {| ludoAnimationStartTime := ludoAnimationStartTime w;
                    animationStartTime := animationStartTime w;
                    lastDiceValue := Some (getRandomDiceValue random) |} in
  let tick := animateDiceFace diceState height width animationDuration
                              now ticket random w in
  (t0 <= now -> now - t0 <= animationDuration ->
   exists p,
     easeOut ((now - t0) / animationDuration) = Ok p
     /\ 0 <= p <= 1
     /\ tick = Some (Ok (if Qltb ticket p then w else redrawn, painted)))
  /\ (now - t0 == 0 -> 0 <= ticket -> tick = Some (Ok (redrawn, painted)))
  /\ (now - t0 == animationDuration -> ticket < 1 -> tick = Some (Ok (w, painted)))
  /\ (now < t0 ->
      tick = Some (Throw (TimeLessThanZero ((now - t0) / animationDuration)))).
Proof.
  intros Ha. cbv zeta. unfold animateDiceFace. rewrite isRolling, Ha.
  assert (between : t0 <= now -> now - t0 <= animationDuration ->
                    exists p, easeOut ((now - t0) / animationDuration) = Ok p
                              /\ 0 <= p <= 1
                              /\ p == 1 - (1 - (now - t0) / animationDuration)
                                         * (1 - (now - t0) / animationDuration)
                              /\ Qltb animationDuration (now - t0) = false).
  { intros Hlo Hhi.
    destruct (easeOut_unit ((now - t0) / animationDuration)) as (p & Hp & Hp01 & Hv).
    { apply share_in_unit; [exact positive|split; lra]. }
    exists p. repeat split; try tauto. now apply Qltb_ge. }
  assert (nonzero : ~ animationDuration == 0) by lra.
  split; [|split; [|split]].
  - intros Hlo Hhi. destruct (between Hlo Hhi) as (p & Hp & Hp01 & _ & Hge).
    exists p. split; [exact Hp|]. split; [exact Hp01|].
    rewrite Hge, (divide_positive _ positive), Hp.
    now destruct (Qltb ticket p).
  - intros He Ht. destruct between as (p & Hp & _ & Hv & Hge); try lra.
    rewrite Hge, (divide_positive _ positive), Hp.
    assert (E : (now - t0) / animationDuration == 0) by (rewrite He; now field).
    rewrite E in Hv.
    assert (Hskip : Qltb ticket p = false) by (apply Qltb_ge; lra).
    now rewrite Hskip.
  - intros He Ht. destruct between as (p & Hp & _ & Hv & Hge); try lra.
    rewrite Hge, (divide_positive _ positive), Hp.
    assert (E : (now - t0) / animationDuration == 1) by (rewrite He; now field).
    rewrite E in Hv.
    assert (Hskip : Qltb ticket p = true) by (apply Qltb_lt; lra).
    now rewrite Hskip.
  - intros Hlt.
    assert (Hge : Qltb animationDuration (now - t0) = false) by (apply Qltb_ge; lra).
    rewrite Hge, (divide_positive _ positive).
    assert (Hneg : (now - t0) / animationDuration < 0).
    { apply Qlt_shift_div_r; [exact positive|]. lra. }
    unfold easeOut.
    assert (H1 : Qltb 1 ((now - t0) / animationDuration) = false)
      by (apply Qltb_ge; lra).
    apply Qltb_lt in Hneg. now rewrite H1, Hneg.
Qed.

End DiceRun.

(** The completion tick of a roll of 5 that last showed a 2. *)
Lemma animateDiceFace_effects_witness :
  let ds := {| value := 5; rolling := true |} in
  let w := {| ludoAnimationStartTime := Some 3%Q;
              animationStartTime := Some 100%Q; lastDiceValue := Some 2 |} in
  let w' := {| ludoAnimationStartTime := Some 3%Q;
               animationStartTime := Some 0%Q; lastDiceValue := Some 5 |} in
  let fx := [RenderDiceFace 2 150; ConsoleLog "animation done"; OnRollDone] in
  animateDiceFace ds 150 150 2000 2101 (1 # 2) (1 # 2) w = Some (Ok (w', fx))
  /\ ludoAnimationStartTime w' = ludoAnimationStartTime w
  /\ (rollsDone fx <= 1)%nat
  /\ (rollsDone fx = 1%nat <->
      rolling ds = true
      /\ exists t0, armed (animationStartTime w) = Some t0 /\ (2000 < 2101 - t0)%Q)
  /\ (rollsDone fx = 1%nat ->
      armed (animationStartTime w') = None /\ lastDiceValue w' = Some (value ds))
  /\ (rolling ds = false -> w' = w).
Proof.
  cbv zeta. split; [vm_compute; reflexivity|].
  apply (animateDiceFace_effects {| value := 5; rolling := true |} 150 150 2000 2101
           (1 # 2) (1 # 2)).
  vm_compute; reflexivity.
Defined.

(** A roll of 5 armed at 100 ms, ticked again at 100 ms: a new face is
    drawn whatever the ticket. *)
Lemma animateDiceFace_flicker_witness :
  let ds := {| value := 5; rolling := true |} in
  let w := {| ludoAnimationStartTime := None;
              animationStartTime := Some 100%Q; lastDiceValue := Some 2 |} in
  ((0 < 2000)%Q /\ rolling ds = true /\ armed (animationStartTime w) = Some 100%Q
   /\ (100 - 100 == 0)%Q /\ (0 <= 0)%Q)
  /\ animateDiceFace ds 150 150 2000 100 0 (5 # 9) w
     = Some (Ok ({| ludoAnimationStartTime := None;
                    animationStartTime := Some 100%Q;
                    lastDiceValue := Some (getRandomDiceValue (5 # 9)) |},
                 [RenderDiceFace (orValue (Some 2) 5) (mathMin 150 150)])).
Proof.
  cbv zeta. split; [repeat split; discriminate|].
  destruct (animateDiceFace_flicker {| value := 5; rolling := true |} 150 150 2000
              100 0 (5 # 9)
              {| ludoAnimationStartTime := None;
                 animationStartTime := Some 100%Q; lastDiceValue := Some 2 |}
              eq_refl eq_refl 100%Q eq_refl) as (_ & atStart & _).
  apply atStart; [reflexivity|discriminate].
Defined.

(* ================================================================== *)
(** * Witnesses of the click geometry *)

Lemma redNestCell_on_board :
  In redNestCell (cells (fst (getBoardMatrix countingSource))).
Proof.
  unfold cells. apply in_concat. eexists. split.
  - apply (nth_error_In _ 2). vm_compute. reflexivity.
  - apply (nth_error_In _ 2). vm_compute. reflexivity.
Qed.

(** A 750 pixel canvas whose corner is at (8, 8), clicked at the centre
    of the cell at row 2, column 2. *)
Lemma getClickedCell_getCellCenter_witness :
  ((0 < 750)%Q /\ In redNestCell (cells (fst (getBoardMatrix countingSource))))
  /\ getClickedCell (x (getCellCenter redNestCell (cellSizeOf 750)) + 8)%Q
                    (y (getCellCenter redNestCell (cellSizeOf 750)) + 8)%Q
                    8 8 750 (fst (getBoardMatrix countingSource))
     = Some (Ok (Some redNestCell)).
Proof.
  split; [split; [reflexivity|exact redNestCell_on_board]|].
  apply (getClickedCell_getCellCenter 750 eq_refl countingSource 8 8 redNestCell).
  exact redNestCell_on_board.
Defined.

(** The same canvas clicked at (130, 120), well inside the cell at row
    2, column 2. *)
Lemma getClickedCell_bounds_witness :
  ((0 < 750)%Q
   /\ (inject_Z 2 * cellSizeOf 750 + cellSizeOf 750 / 1000 <= 130 - 8
       <= inject_Z 2 * cellSizeOf 750 + cellSizeOf 750 - cellSizeOf 750 / 1000)%Q
   /\ (inject_Z 2 * cellSizeOf 750 + cellSizeOf 750 / 1000 <= 120 - 8
       <= inject_Z 2 * cellSizeOf 750 + cellSizeOf 750 - cellSizeOf 750 / 1000)%Q)
  /\ exists cell,
       getClickedCell 130 120 8 8 750 (fst (getBoardMatrix countingSource))
       = Some (Ok (Some cell))
       /\ cellAt (fst (getBoardMatrix countingSource)) 2 2 = Some cell
       /\ cellPosition cell = {| row := 2; col := 2 |}.
Proof.
  assert (inX : (inject_Z 2 * cellSizeOf 750 + cellSizeOf 750 / 1000 <= 130 - 8
                 <= inject_Z 2 * cellSizeOf 750 + cellSizeOf 750 - cellSizeOf 750 / 1000)%Q)
    by (split; discriminate).
  assert (inY : (inject_Z 2 * cellSizeOf 750 + cellSizeOf 750 / 1000 <= 120 - 8
                 <= inject_Z 2 * cellSizeOf 750 + cellSizeOf 750 - cellSizeOf 750 / 1000)%Q)
    by (split; discriminate).
  split; [split; [reflexivity|split; [exact inX|exact inY]]|].
  destruct (getClickedCell_bounds 750 eq_refl countingSource 8 8 130 120) as [hit _].
  apply (hit 2%nat 2%nat); [lia|lia|exact inX|exact inY].
Defined.

(* ================================================================== *)
(** * Properties of the drawing functions *)

Section DiceFace.

Local Open Scope Q_scope.

Variable diceValue : Z.
Variable size : Q.

Lemma face_cases :
  diceValue = 1%Z \/ diceValue = 2%Z \/ diceValue = 3%Z \/ diceValue = 4%Z
  \/ diceValue = 5%Z \/ diceValue = 6%Z
  \/ ((diceValue =? 1)%Z = false /\ (diceValue =? 2)%Z = false
      /\ (diceValue =? 3)%Z = false /\ (diceValue =? 4)%Z = false
      /\ (diceValue =? 5)%Z = false /\ (diceValue =? 6)%Z = false
      /\ ((1 <=? diceValue)%Z && (diceValue <=? 6)%Z) = false).
Proof.
  destruct (Z.eqb_spec diceValue 1); [tauto|]. destruct (Z.eqb_spec diceValue 2); [tauto|].
  destruct (Z.eqb_spec diceValue 3); [tauto|]. destruct (Z.eqb_spec diceValue 4); [tauto|].
  destruct (Z.eqb_spec diceValue 5); [tauto|]. destruct (Z.eqb_spec diceValue 6); [tauto|].
  do 6 right. repeat split. apply andb_false_iff.
  rewrite Z.leb_gt, Z.leb_gt. lia.
Qed.

(** X22: [renderDiceFace] draws as many pips as the value of the face,
    and none for a value that is not a face; every pip has a radius of
    8% of the size and is red on a six and black otherwise; and for a
    positive size every pip lies, whole, within the outline of the dice,
    which runs from a tenth to nine tenths of the size. *)
Theorem renderDiceFace_pips :
  let drawn := pips (renderDiceFace diceValue size) in
  List.length drawn
  = (if (1 <=? diceValue)%Z && (diceValue <=? 6)%Z then Z.to_nat diceValue else 0%nat)
  /\ Forall (fun pip =>
               snd (fst pip) = size / 10 * (8 # 10)
               /\ snd pip = Color (if (diceValue =? 6)%Z then Colors.RED else Colors.BLACK))
            drawn
  /\ (0 < size ->
      Forall (fun pip =>
                let center := fst (fst pip) in
                let radius := snd (fst pip) in
                size / 10 <= x center - radius /\ x center + radius <= size - size / 10
                /\ size / 10 <= y center - radius /\ y center + radius <= size - size / 10)
             drawn).
Proof.
  cbv zeta. unfold renderDiceFace.
  destruct face_cases as [->|[->|[->|[->|[->|[->|(E1 & E2 & E3 & E4 & E5 & E6 & Er)]]]]]];
    [| | | | | |rewrite E1, E2, E3, E4, E5, E6, Er];
    (split; [reflexivity|]);
    cbn [pips flat_map app Z.eqb Pos.eqb];
    (split; [repeat apply Forall_cons; try apply Forall_nil; split; reflexivity|]);
    intros Hs; repeat apply Forall_cons; try apply Forall_nil;
    cbn [fst snd x y]; repeat split; unfold Qdiv;
    try setoid_replace (/ 10) with (1 # 10) by reflexivity;
    try setoid_replace (/ 2) with (1 # 2) by reflexivity; lra.
Qed.

End DiceFace.

Section Loops.

Context {A : Type}.
Variable body : A -> Painting.

Lemma forLoop_ok (l : list A) :
  (forall a, In a l -> snd (body a) = None) ->
  forLoop body l = (flat_map (fun a => fst (body a)) l, None).
Proof.
  induction l as [|a l IH]; cbn; intros H; [reflexivity|].
  unfold andThen. rewrite (H a) by auto. rewrite IH by auto. reflexivity.
Qed.

Lemma forLoop_throw (l1 l2 : list A) (a : A) (e : Exception) :
  (forall b, In b l1 -> snd (body b) = None) ->
  snd (body a) = Some e ->
  forLoop body (l1 ++ a :: l2) = (flat_map (fun b => fst (body b)) l1 ++ fst (body a), Some e).
Proof.
  intros Hok Ha. induction l1 as [|b l1 IH]; cbn.
  - unfold andThen. rewrite Ha. destruct (body a) as [c o]. cbn in *. now subst.
  - unfold andThen. rewrite (Hok b) by (now left).
    rewrite IH by (intros; apply Hok; now right). cbn. now rewrite app_assoc.
Qed.

End Loops.

Section BoardPainting.

Variable boardMatrix : BoardMatrix.
Variable cellSize : Q.

Lemma upto_In n (a : Z) : In a (upto n) -> exists k, a = Z.of_nat k /\ (k < Z.to_nat n)%nat.
Proof.
  unfold upto. rewrite in_map_iff. intros (k & <- & Hk).
  apply in_seq in Hk. exists k. split; [reflexivity|lia].
Qed.

Lemma upto_split (n k : nat) :
  (k < n)%nat ->
  upto (Z.of_nat n)
  = map Z.of_nat (seq 0 k) ++ Z.of_nat k :: map Z.of_nat (seq (S k) (n - S k)).
Proof.
  intros H. unfold upto. rewrite Nat2Z.id.
  replace n with (k + S (n - S k))%nat at 1 by lia.
  rewrite seq_app, map_app. reflexivity.
Qed.

Lemma flat_map_agree {X Y} (F G : X -> list Y) (l : list X) :
  (forall a, In a l -> F a = G a) -> flat_map F l = flat_map G l.
Proof.
  induction l as [|a l IH]; cbn; intros H; [reflexivity|].
  rewrite (H a) by auto. now rewrite IH by auto.
Qed.

Lemma coinCalls_app a b : coinCalls (a ++ b) = coinCalls a ++ coinCalls b.
Proof. apply flat_map_app. Qed.

Lemma flat_map_flat_map {X Y Z'} (F : Y -> list Z') (G : X -> list Y) (l : list X) :
  flat_map F (flat_map G l) = flat_map (fun a => flat_map F (G a)) l.
Proof.
  induction l as [|a l IH]; cbn; [reflexivity|]. now rewrite flat_map_app, IH.
Qed.

Lemma coinCalls_flat_map {X} (F : X -> list Call) (l : list X) :
  (forall a, coinCalls (F a) = []) -> coinCalls (flat_map F l) = [].
Proof.
  intros H. unfold coinCalls in *. rewrite flat_map_flat_map.
  induction l as [|a l IH]; cbn; [reflexivity|]. now rewrite H.
Qed.

Lemma paintCell_row (i j : Z) :
  match nth_error boardMatrix (Z.to_nat i) with
  | Some _ => snd (paintCell boardMatrix cellSize i j) = None
  | None => paintCell boardMatrix cellSize i j = ([], Some TypeError)
  end.
Proof.
  unfold paintCell, cellOf. destruct (nth_error boardMatrix (Z.to_nat i)) as [r|];
    [|reflexivity].
  now destruct (nth_error r (Z.to_nat j)).
Qed.

Lemma paintCoins_row (i j : Z) :
  match nth_error boardMatrix (Z.to_nat i) with
  | Some _ => snd (paintCoins boardMatrix cellSize i j) = None
  | None => paintCoins boardMatrix cellSize i j = ([], Some TypeError)
  end.
Proof.
  unfold paintCoins, cellOf. destruct (nth_error boardMatrix (Z.to_nat i)) as [r|];
    [|reflexivity].
  now destruct (nth_error r (Z.to_nat j)).
Qed.

Lemma paintCell_no_coin (i j : Z) :
  coinCalls (fst (paintCell boardMatrix cellSize i j)) = [].
Proof.
  unfold paintCell. destruct (cellOf boardMatrix i j) as [[cell|]|]; try reflexivity.
  cbn [fst]. rewrite coinCalls_app.
  now destruct (isType START cell
                || isType SAFE cell
                   && match cellPlayer cell with Some _ => false | None => true end).
Qed.

(** One pass of a pair of loops whose body throws exactly on a missing
    row. *)
Lemma loops_outcome (paint : Z -> Z -> Painting) :
  (forall i j, match nth_error boardMatrix (Z.to_nat i) with
               | Some _ => snd (paint i j) = None
               | None => paint i j = ([], Some TypeError)
               end) ->
  let pass := forLoop (fun i => forLoop (fun j => paint i j) (upto BOARD_SIZE))
                      (upto BOARD_SIZE) in
  ((15 <= List.length boardMatrix)%nat ->
   pass = (flat_map (fun i => flat_map (fun j => fst (paint i j)) (upto BOARD_SIZE))
                    (upto BOARD_SIZE), None))
  /\ ((List.length boardMatrix < 15)%nat ->
      pass = (flat_map (fun i => flat_map (fun j => fst (paint i j)) (upto BOARD_SIZE))
                       (map Z.of_nat (seq 0 (List.length boardMatrix))),
              Some TypeError)).
Proof.
  intros Hrow. cbv zeta.
  assert (rowOk : forall k, (k < List.length boardMatrix)%nat ->
            forLoop (fun j => paint (Z.of_nat k) j) (upto BOARD_SIZE)
            = (flat_map (fun j => fst (paint (Z.of_nat k) j)) (upto BOARD_SIZE), None)).
  { intros k Hk. apply forLoop_ok. intros j _.
    specialize (Hrow (Z.of_nat k) j). rewrite Nat2Z.id in Hrow.
    destruct (nth_error boardMatrix k) eqn:E; [exact Hrow|].
    apply nth_error_None in E. lia. }
  assert (rowMissing :
            forLoop (fun j => paint (Z.of_nat (List.length boardMatrix)) j) (upto BOARD_SIZE)
            = ([], Some TypeError)).
  { specialize (Hrow (Z.of_nat (List.length boardMatrix)) 0).
    rewrite Nat2Z.id in Hrow.
    destruct (nth_error boardMatrix (List.length boardMatrix)) eqn:E.
    - assert (H : nth_error boardMatrix (List.length boardMatrix) <> None) by congruence.
      apply nth_error_Some in H. lia.
    - change (upto BOARD_SIZE) with (0 :: map Z.of_nat (seq 1 14)).
      cbn [forLoop]. unfold andThen. now rewrite Hrow. }
  split.
  - intros Hlen. rewrite forLoop_ok.
    + f_equal. apply flat_map_agree. intros i Hi.
      apply upto_In in Hi. destruct Hi as (k & -> & Hk).
      rewrite rowOk; [reflexivity|]. unfold BOARD_SIZE in Hk. lia.
    + intros i Hi. apply upto_In in Hi. destruct Hi as (k & -> & Hk).
      rewrite rowOk; [reflexivity|]. unfold BOARD_SIZE in Hk. lia.
  - intros Hlen.
    change BOARD_SIZE with (Z.of_nat 15) at 2.
    rewrite (upto_split 15 (List.length boardMatrix) Hlen).
    rewrite (forLoop_throw _ _ _ _ TypeError).
    + rewrite rowMissing, app_nil_r. f_equal. apply flat_map_agree.
      intros i Hi. apply in_map_iff in Hi. destruct Hi as (k & <- & Hk).
      apply in_seq in Hk. rewrite rowOk; [reflexivity|lia].
    + intros i Hi. apply in_map_iff in Hi. destruct Hi as (k & <- & Hk).
      apply in_seq in Hk. rewrite rowOk; [reflexivity|lia].
    + now rewrite rowMissing.
Qed.

End BoardPainting.

Section BoardDrawing.

Variable boardSize : Q.
Variable gameState : LudoGameState.
Variable cellSize : Q.

(** X23: [renderBoard] and the shape of the board.  On a board of at
    least fifteen rows it is not rejected, and what it paints ends with
    exactly one [renderCoin] call for every coin of the first fifteen
    rows and columns, row by row, at the centre of the coin's cell and
    for the coin's player, and holds no [renderCoin] call before that:
    the coins are painted last, on top of the cells, the finish zone and
    the outline.  On a board of fewer than fifteen rows it is rejected
    with a TypeError and has painted no coin at all. *)
Theorem renderBoard_outcome :
  let painting := renderBoard boardSize gameState cellSize in
  ((15 <= List.length (boardMatrix gameState))%nat ->
   snd painting = None
   /\ exists below,
        fst painting
        = below ++ flat_map (fun cell =>
                               map (fun coin => CallRenderCoin (getCellCenter cell cellSize)
                                                               (player coin) cellSize)
                                   (coins cell))
                            (grid (boardMatrix gameState))
        /\ coinCalls below = [])
  /\ ((List.length (boardMatrix gameState) < 15)%nat ->
      snd painting = Some TypeError /\ coinCalls (fst painting) = []).
Proof.
  cbv zeta. unfold renderBoard. cbv zeta.
  destruct (loops_outcome (boardMatrix gameState)
              (paintCell (boardMatrix gameState) cellSize)
              (paintCell_row (boardMatrix gameState) cellSize)) as [cellsOk cellsFail].
  destruct (loops_outcome (boardMatrix gameState)
              (paintCoins (boardMatrix gameState) cellSize)
              (paintCoins_row (boardMatrix gameState) cellSize)) as [coinsOk _].
  split; intros Hlen.
  - rewrite (cellsOk Hlen), (coinsOk Hlen). unfold andThen. cbn [fst snd].
    split; [reflexivity|].
    eexists. split.
    + rewrite !app_assoc. f_equal.
      unfold grid. rewrite flat_map_flat_map. apply flat_map_ext. intros i.
      rewrite flat_map_flat_map. apply flat_map_ext. intros j.
      unfold paintCoins. destruct (cellOf (boardMatrix gameState) i j) as [[cell|]|];
        cbn; now rewrite ?app_nil_r.
    + rewrite !coinCalls_app.
      rewrite (coinCalls_flat_map
                 (fun i => flat_map (fun j => fst (paintCell (boardMatrix gameState)
                                                             cellSize i j))
                                    (upto BOARD_SIZE)));
        [reflexivity|].
      intros i. apply coinCalls_flat_map. intros j. apply paintCell_no_coin.
  - rewrite (cellsFail Hlen). unfold andThen. cbn [fst snd].
    split; [reflexivity|]. rewrite coinCalls_app. cbn [coinCalls flat_map app].
    apply coinCalls_flat_map. intros i. apply coinCalls_flat_map. intros j.
    apply paintCell_no_coin.
Qed.

End BoardDrawing.

Section Tidy.

Lemma pathState_app (a b : list Call) :
  forall o, pathState o (a ++ b)
            = match pathState o a with
              | Some o' => pathState o' b
              | None => None
              end.
Proof.
  induction a as [|c a IH]; intros o; [reflexivity|].
  destruct c, o; cbn; auto.
Qed.

Lemma contextCalls_app (a b : list Call) :
  contextCalls (a ++ b) = contextCalls a ++ contextCalls b.
Proof. unfold contextCalls. now rewrite !flat_map_app. Qed.

Lemma tidy_nil : tidy [].
Proof. split; reflexivity. Qed.

Lemma tidy_app (a b : list Call) : tidy a -> tidy b -> tidy (a ++ b).
Proof.
  intros [Pa Sa] [Pb Sb]. unfold tidy. rewrite contextCalls_app. split.
  - now rewrite pathState_app, Pa.
  - unfold shadowBlurAfter in *. now rewrite fold_left_app, Sa.
Qed.

Lemma tidy_flat_map {X} (F : X -> list Call) (l : list X) :
  (forall a, tidy (F a)) -> tidy (flat_map F l).
Proof.
  intros H. induction l as [|a l IH]; cbn; [exact tidy_nil|].
  now apply tidy_app.
Qed.

Lemma tidy_forLoop {X} (F : X -> Painting) (l : list X) :
  (forall a, tidy (fst (F a))) -> tidy (fst (forLoop F l)).
Proof.
  intros H. induction l as [|a l IH]; cbn; [exact tidy_nil|].
  unfold andThen. destruct (snd (F a)); [apply H|]. cbn. now apply tidy_app.
Qed.

Lemma tidy_andThen (a b : Painting) :
  tidy (fst a) -> tidy (fst b) -> tidy (fst (andThen a b)).
Proof.
  intros Ha Hb. unfold andThen. destruct (snd a); [exact Ha|]. cbn.
  now apply tidy_app.
Qed.

Lemma tidy_paintCell m cs i j : tidy (fst (paintCell m cs i j)).
Proof.
  unfold paintCell. destruct (cellOf m i j) as [[cell|]|]; try exact tidy_nil.
  cbn [fst].
  destruct (isType START cell
            || isType SAFE cell
               && match cellPlayer cell with Some _ => false | None => true end);
    split; reflexivity.
Qed.

Lemma tidy_paintCoins m cs i j : tidy (fst (paintCoins m cs i j)).
Proof.
  unfold paintCoins. destruct (cellOf m i j) as [[cell|]|]; try exact tidy_nil.
  cbn [fst]. induction (coins cell) as [|coin l IH]; [exact tidy_nil|].
  change (tidy ([CallRenderCoin (getCellCenter cell cs) (player coin) cs]
                ++ map (fun coin => CallRenderCoin (getCellCenter cell cs) (player coin) cs)
                       l)).
  apply tidy_app; [split; reflexivity|exact IH].
Qed.

(** X24: every drawing function leaves the canvas context tidy.  Once
    the helper calls are replaced by their bodies, what [renderBoard]
    paints on any board, rejected or not, what [renderDiceFace] paints
    for any value, [renderAnimationPath] and [renderCoin] begin a path
    only outside a path, draw, fill and stroke only inside one, close
    every path they begin, and end with the shadow blur back at 0. *)
Theorem drawings_tidy :
  (forall boardSize gameState cellSize,
      tidy (fst (renderBoard boardSize gameState cellSize)))
  /\ (forall diceValue size, tidy (renderDiceFace diceValue size))
  /\ (forall start end_, tidy (renderAnimationPath start end_))
  /\ (forall center playerType cellSize, tidy (renderCoin center playerType cellSize)).
Proof.
  split; [|split; [|split]].
  - intros boardSize gameState cellSize. unfold renderBoard. cbv zeta.
    apply tidy_andThen; [split; reflexivity|].
    apply tidy_andThen;
      [apply tidy_forLoop; intros i; apply tidy_forLoop; intros j; apply tidy_paintCell|].
    apply tidy_andThen; [split; reflexivity|].
    apply tidy_andThen; [split; reflexivity|].
    apply tidy_forLoop. intros i. apply tidy_forLoop. intros j. apply tidy_paintCoins.
  - intros diceValue size. unfold renderDiceFace. cbv zeta.
    repeat apply tidy_app;
      try match goal with |- context [if ?b then _ else _] => destruct b end;
      split; reflexivity.
  - intros start end_. split; reflexivity.
  - intros center playerType cellSize. split; reflexivity.
Qed.

End Tidy.

(** X25: the colour string of a player identifies the player.  The
    seven members of [Colors] stand for seven different strings; so two
    players for whom [getPlayerColor] returns the same string are the
    same player, and no player is given the string of the white of a
    cell without colour, of the black of the outlines or of the
    transparent colour. *)
Theorem getPlayerColor_injective :
  (forall c d, colorValue c = colorValue d -> c = d)
  /\ (forall p q,
        colorValue (getPlayerColor (Some p)) = colorValue (getPlayerColor (Some q)) ->
        p = q)
  /\ forall p,
       colorValue (getPlayerColor (Some p)) <> colorValue (getPlayerColor None)
       /\ colorValue (getPlayerColor (Some p)) <> "#000000"%string
       /\ colorValue (getPlayerColor (Some p)) <> "transparent"%string.
Proof.
  split; [|split].
  - intros [] []; cbn; intros H; try reflexivity; discriminate H.
  - intros [] []; cbn; intros H; try reflexivity; discriminate H.
  - intros []; cbn; repeat split; discriminate.
Qed.
